(** * MiniRAG: a shallow embedding of [rag_engine.py]

    The development follows the Python module top to bottom: Python
    primitives used by the engine (whitespace splitting, slicing, ranges),
    the chunker, the SQLite store with its committed and uncommitted
    copies, the reconciliation pass, the in-memory index and the query
    engine with its cache. *)

From Stdlib Require Import ZArith Lia List Ascii String Permutation Sorting.Sorted.
From Stdlib Require Import Reals Lra.
From Stdlib Require Import Floats.PrimFloat.
From stdpp Require Import gmap strings list fin_maps sorting.

Import ListNotations.
Local Open Scope Z_scope.

(** ** Python exceptions and results *)

Inductive exn : Type :=
  | ValueError          (* range() arg 3 must not be zero *)
  | IndexError          (* list index out of range *)
  | FileNotFoundError   (* open() on a missing file *)
  | OracleError.        (* SentenceTransformer.encode raised *)

Inductive result (A : Type) : Type :=
  | Ok (a : A)
  | Raise (e : exn).
Arguments Ok {A} a.
Arguments Raise {A} e.

Module Py.

(** *** [str.isspace] on the code points below 256

    A character is a code point in [0, 255]; Python's whitespace there is
    TAB..CR, FS..US, SPACE, NEL (0x85) and NBSP (0xA0). *)
Definition is_space (c : ascii) : bool :=
  let n := N_of_ascii c in
  ((9 <=? n) && (n <=? 13) || (28 <=? n) && (n <=? 32) || (n =? 133) || (n =? 160))%N.

(** [str.split()] with no argument: maximal runs of non-whitespace
    characters, in order.  [cur] is the word being read. *)
Fixpoint split_from (cur : list ascii) (s : list ascii) : list (list ascii) :=
  match s with
  | [] => match cur with [] => [] | _ => [cur] end
  | c :: s' =>
      if is_space c
      then match cur with
           | [] => split_from [] s'
           | _ => cur :: split_from [] s'
           end
      else split_from (cur ++ [c]) s'
  end.

Definition split (s : string) : list string :=
  map string_of_list_ascii (split_from [] (list_ascii_of_string s)).

(** [sep.join(ws)] *)
Fixpoint join (sep : string) (ws : list string) : string :=
  match ws with
  | [] => EmptyString
  | [w] => w
  | w :: ws' => w +:+ sep +:+ join sep ws'
  end.

(** [str.strip()]: drop leading and trailing whitespace. *)
Fixpoint lstrip_chars (s : list ascii) : list ascii :=
  match s with
  | [] => []
  | c :: s' => if is_space c then lstrip_chars s' else s
  end.

Definition strip (s : string) : string :=
  string_of_list_ascii
    (rev (lstrip_chars (rev (lstrip_chars (list_ascii_of_string s))))).

(** [str.lower()] on the code points below 256: the letters A..Z, and
    the capital letters 0xC0..0xDE but for the sign 0xD7. *)
Definition lower_char (c : ascii) : ascii :=
  let n := N_of_ascii c in
  if ((65 <=? n) && (n <=? 90)
      || (192 <=? n) && (n <=? 222) && negb (n =? 215))%N
  then ascii_of_N (n + 32) else c.

Definition lower (s : string) : string :=
  string_of_list_ascii (map lower_char (list_ascii_of_string s)).

(** [s.endswith(suffix)] *)
Definition endswith (s suffix : string) : bool :=
  let n := String.length s in
  let m := String.length suffix in
  (m <=? n)%nat && String.eqb (String.substring (n - m) m s) suffix.

(** *** Slices [l[lo:hi]] with Python's clamping of indices *)
Definition clamp_index (n : Z) (i : Z) : Z :=
  if i <? 0 then Z.max 0 (i + n) else Z.min i n.

Definition slice {A} (l : list A) (lo hi : option Z) : list A :=
  let n := Z.of_nat (length l) in
  let a := match lo with Some i => clamp_index n i | None => 0 end in
  let b := match hi with Some j => clamp_index n j | None => n end in
  firstn (Z.to_nat (b - a)) (skipn (Z.to_nat a) l).

(** *** [range(start, stop, step)] *)
Definition range_len (start stop step : Z) : Z :=
  if 0 <? step then Z.max 0 ((stop - start + step - 1) / step)
  else Z.max 0 ((start - stop - step - 1) / (- step)).

Definition range (start stop step : Z) : result (list Z) :=
  if step =? 0 then Raise ValueError
  else Ok (map (fun i => start + Z.of_nat i * step)
               (seq 0 (Z.to_nat (range_len start stop step)))).

End Py.

(** ** The chunker *)

Definition CHUNK_SIZE : Z := 150.

(** [MiniRAG._chunk_text] *)
Definition _chunk_text (text : string) (chunk_size : Z) : result (list string) :=
  let words := Py.split text in
  match Py.range 0 (Z.of_nat (length words)) chunk_size with
  | Raise e => Raise e
  | Ok starts =>
      Ok (map (fun i => Py.join " " (Py.slice words (Some i) (Some (i + chunk_size))))
              starts)
  end.

(** ** The numeric kernel (NumPy on float32) and the external services

    The arithmetic of NumPy is taken through an interface, so that the
    engine can be run on machine floats and reasoned about on the reals.
    [vec] is the type of one-dimensional float32 arrays of the embedding
    model's dimension: what [encode] returns and what a stored BLOB
    decodes to ([tobytes] followed by [frombuffer] is the identity). *)

Class NumPy : Type := {
  scalar : Type;
  vec : Type;
  np_dot : vec -> vec -> scalar;        (* np.dot on two 1-D arrays *)
  np_norm : vec -> scalar;              (* np.linalg.norm of a 1-D array *)
  fadd : scalar -> scalar -> scalar;
  fmul : scalar -> scalar -> scalar;
  fdiv : scalar -> scalar -> scalar;
  lit_1e_12 : scalar;                   (* the literal 1e-12 *)
  fleb : scalar -> scalar -> bool       (* the order argsort sorts by *)
}.

(** The order is a total preorder: what holds of floats without NaN. *)
Class TotalOrder (K : NumPy) : Prop := {
  fleb_total : forall x y : scalar, fleb x y = true \/ fleb y x = true;
  fleb_trans : forall x y z : scalar,
      fleb x y = true -> fleb y z = true -> fleb x z = true
}.

(** [hashlib] and the sentence-embedding model.  The oracle may fail
    ([None]: [encode] raises) and may depend on the calls made so far. *)
Class Services (K : NumPy) : Type := {
  sha1_hex : string -> string;
  md5_hex : string -> string;
  encode : list string -> string -> option vec;
  get_sentence_embedding_dimension : nat
}.

Section Engine.

Context {K : NumPy} {S : Services K}.

(** [_sha1] *)
Definition _sha1 (text : string) : string := sha1_hex text.

(** ** The store: two tables, and a connection with uncommitted changes *)

(** A row of [documents]. *)
Record Row : Type := mkRow {
  row_id : Z;
  row_source : string;
  row_chunk : string;
  row_embedding : vec;
  row_chunk_hash : string
}.

(** The database file: [documents] in rowid order, the AUTOINCREMENT
    counter of [documents] (sqlite_sequence) and [files_meta], whose
    primary key is the file name. *)
Record Database : Type := mkDatabase {
  documents : list Row;
  documents_seq : Z;
  files_meta : gmap string string
}.

(** A connection: [committed] is what is durable, [working] is what the
    cursor sees, with the changes of the open transaction. *)
Record Connection : Type := mkConnection {
  committed : Database;
  working : Database
}.

(** INSERT INTO documents (source, chunk, embedding, chunk_hash) *)
Definition next_rowid (d : Database) : Z :=
  1 + foldr Z.max (documents_seq d) (map row_id (documents d)).

Definition insert_document (src chk : string) (emb : vec) (h : string)
    (d : Database) : Database :=
  let i := next_rowid d in
  mkDatabase (documents d ++ [mkRow i src chk emb h]) i (files_meta d).

(** DELETE FROM documents WHERE source = ? *)
Definition delete_documents (src : string) (d : Database) : Database :=
  mkDatabase (filter (fun r => row_source r <> src) (documents d))
             (documents_seq d) (files_meta d).

(** INSERT OR REPLACE INTO files_meta (file, sha1) *)
Definition replace_files_meta (file sha : string) (d : Database) : Database :=
  mkDatabase (documents d) (documents_seq d) (<[file := sha]> (files_meta d)).

(** UPDATE files_meta SET sha1=? WHERE file=? *)
Definition update_files_meta (sha file : string) (d : Database) : Database :=
  mkDatabase (documents d) (documents_seq d)
             (alter (fun _ => sha) file (files_meta d)).

(** DELETE FROM files_meta WHERE file=? *)
Definition delete_files_meta (file : string) (d : Database) : Database :=
  mkDatabase (documents d) (documents_seq d) (delete file (files_meta d)).

(** ** The engine object *)

(** A two-dimensional float32 array: its rows and its second dimension. *)
Record Matrix : Type := mkMatrix {
  mat_rows : list vec;
  mat_cols : nat
}.

(** [np.zeros((0, cols))], and [np.vstack] of a list of rows: its second
    dimension is the length of the rows, which for [vec] is the dimension of
    the model. *)
Definition np_zeros (cols : nat) : Matrix := mkMatrix [] cols.
Definition np_vstack (rows : list vec) : Matrix :=
  mkMatrix rows get_sentence_embedding_dimension.

(** One result of [query]. *)
Record Hit : Type := mkHit {
  chunk : string;
  source : string;
  score : scalar
}.

(** The fields of [MiniRAG]; [encode_calls] is the log of the texts the
    model was asked to embed, oldest first. *)
Record MiniRAG : Type := mkMiniRAG {
  conn : Connection;
  encode_calls : list string;
  chunks : list string;
  sources : list string;
  embeddings : Matrix;
  query_cache : gmap string (list Hit)
}.

Definition set_conn (c : Connection) (self : MiniRAG) : MiniRAG :=
  mkMiniRAG c (encode_calls self) (chunks self) (sources self)
            (embeddings self) (query_cache self).
Definition set_encode_calls (l : list string) (self : MiniRAG) : MiniRAG :=
  mkMiniRAG (conn self) l (chunks self) (sources self)
            (embeddings self) (query_cache self).
Definition set_index (cs ss : list string) (m : Matrix) (self : MiniRAG) : MiniRAG :=
  mkMiniRAG (conn self) (encode_calls self) cs ss m (query_cache self).
Definition set_query_cache (qc : gmap string (list Hit)) (self : MiniRAG) : MiniRAG :=
  mkMiniRAG (conn self) (encode_calls self) (chunks self) (sources self)
            (embeddings self) qc.

(** ** Methods: state passing with exceptions

    A method maps the object to an outcome and the object as the method
    left it; after [Raise] the object is as it was when the exception
    was raised. *)
Definition M (A : Type) : Type := MiniRAG -> result A * MiniRAG.

Definition ret {A} (a : A) : M A := fun self => (Ok a, self).
Definition raise {A} (e : exn) : M A := fun self => (Raise e, self).
Definition bind {A B} (m : M A) (k : A -> M B) : M B :=
  fun self =>
    match m self with
    | (Ok a, self') => k a self'
    | (Raise e, self') => (Raise e, self')
    end.
Definition lift {A} (r : result A) : M A := fun self => (r, self).

Notation "'do' x <- m ; k" := (bind m (fun x => k))
  (at level 10, x name, m at level 100, k at level 200).
Notation "m ;; k" := (bind m (fun _ => k))
  (at level 100, k at level 200, right associativity).

(** [for x in l: body x] *)
Fixpoint for_each {A} (l : list A) (body : A -> M unit) : M unit :=
  match l with
  | [] => ret tt
  | x :: l' => body x ;; for_each l' body
  end.

(** [self.cursor.execute] of a statement that writes, and [self.conn.commit()] *)
Definition execute (stmt : Database -> Database) : M unit :=
  fun self =>
    let c := conn self in
    (Ok tt, set_conn (mkConnection (committed c) (stmt (working c))) self).

Definition commit : M unit :=
  fun self =>
    let c := conn self in
    (Ok tt, set_conn (mkConnection (working c) (working c)) self).

(** [self.model.encode(text)] *)
Definition model_encode (text : string) : M vec :=
  fun self =>
    let self' := set_encode_calls (encode_calls self ++ [text]) self in
    match encode (encode_calls self) text with
    | Some v => (Ok v, self')
    | None => (Raise OracleError, self')
    end.

(** The document folder: file name to content.  [open(path).read()] *)
Definition read_file (fs : gmap string string) (fname : string) : M string :=
  match fs !! fname with
  | Some content => ret content
  | None => raise FileNotFoundError
  end.

(** [os.listdir]: the names, in the order of the map's enumeration. *)
Definition listdir (fs : gmap string string) : list string :=
  map fst (map_to_list fs).

(** ** Indexing and reconciliation *)

(** The body of the loop of [_index_file]. *)
Definition index_chunk (filename : string) (c : string) : M unit :=
  let c := Py.strip c in
  if String.eqb c "" then ret tt
  else
    do emb <- model_encode c;
    execute (insert_document filename c emb (_sha1 c)).

(** [MiniRAG._index_file] *)
Definition _index_file (fs : gmap string string) (filename : string) : M unit :=
  do text <- read_file fs filename;
  do cs <- lift (_chunk_text text CHUNK_SIZE);
  for_each cs (index_chunk filename) ;;
  commit.

(** [MiniRAG._load_from_db] *)
Definition _load_from_db : M unit :=
  fun self =>
    let rows := documents (working (conn self)) in
    let cs := map row_chunk rows in
    let ss := map row_source rows in
    let emb_list := map row_embedding rows in
    let m := if (0 <? length emb_list)%nat then np_vstack emb_list
             else np_zeros get_sentence_embedding_dimension in
    (Ok tt, set_index cs ss m self).

(** The file filter of [_sync_index_with_files]. *)
Definition eligible (f : string) : bool :=
  Py.endswith (Py.lower f) ".txt" || Py.endswith (Py.lower f) ".md".

(** The loop that fills [current_meta]. *)
Fixpoint read_meta (fs : gmap string string) (files : list string)
    : M (list (string * string)) :=
  match files with
  | [] => ret []
  | fname :: rest =>
      do content <- read_file fs fname;
      do metas <- read_meta fs rest;
      ret ((fname, _sha1 content) :: metas)
  end.

(** The body of the "add new or updated" loop. *)
Definition sync_file (fs : gmap string string) (stored : gmap string string)
    (item : string * string) : M unit :=
  let '(fname, sha) := item in
  match stored !! fname with
  | None =>
      _index_file fs fname ;;
      execute (replace_files_meta fname sha) ;;
      commit
  | Some old =>
      if String.eqb old sha then ret tt
      else
        execute (delete_documents fname) ;;
        commit ;;
        _index_file fs fname ;;
        execute (update_files_meta sha fname) ;;
        commit
  end.

(** The body of the "delete removed" loop. *)
Definition remove_file (fname : string) : M unit :=
  execute (delete_documents fname) ;;
  execute (delete_files_meta fname) ;;
  commit.

(** [MiniRAG._sync_index_with_files] *)
Definition _sync_index_with_files (fs : gmap string string) : M unit :=
  let files := filter (fun f => eligible f = true) (listdir fs) in
  do current_meta <- read_meta fs files;
  do stored <- (fun self => (Ok (files_meta (working (conn self))), self));
  for_each current_meta (sync_file fs stored) ;;
  let removed : gset string := dom stored ∖ list_to_set (map fst current_meta) in
  for_each (elements removed) remove_file ;;
  _load_from_db.

(** [MiniRAG.__init__] on the database file [db] and the folder [fs]:
    the object with its fields as they are set before the first
    reconciliation, then the reconciliation. *)
Definition new_object (db : Database) : MiniRAG :=
  mkMiniRAG (mkConnection db db) [] [] []
            (np_zeros get_sentence_embedding_dimension) ∅.

Definition __init__ (fs : gmap string string) (db : Database)
    : result unit * MiniRAG :=
  _sync_index_with_files fs (new_object db).

(** ** The query engine *)

(** [MiniRAG._hash] *)
Definition _hash (text : string) : string := md5_hex text.

(** [ndarray.argsort()]: the indices that sort the array in ascending
    order.  NumPy's default sort fixes no order among equal keys; here an
    insertion sort that keeps equal keys in index order. *)
Fixpoint insert_key (p : nat * scalar) (l : list (nat * scalar))
    : list (nat * scalar) :=
  match l with
  | [] => [p]
  | q :: l' => if fleb (snd p) (snd q) then p :: l else q :: insert_key p l'
  end.

Definition sort_keys (l : list (nat * scalar)) : list (nat * scalar) :=
  foldr insert_key [] l.

Definition argsort (xs : list scalar) : list nat :=
  map fst (sort_keys (combine (seq 0 (length xs)) xs)).

(** [np.linalg.norm(E, axis=1) * (np.linalg.norm(q) + 1e-12)] *)
Definition cosine_norms (E : Matrix) (q : vec) : list scalar :=
  map (fun e => fmul (np_norm e) (fadd (np_norm q) lit_1e_12)) (mat_rows E).

(** [np.dot(E, q) / norms] *)
Definition cosine_sims (E : Matrix) (q : vec) : list scalar :=
  zip_with fdiv (map (fun e => np_dot e q) (mat_rows E)) (cosine_norms E q).

(** [l[idx]] for an index that is not negative *)
Definition getitem {A} (l : list A) (idx : nat) : result A :=
  match l !! idx with
  | Some x => Ok x
  | None => Raise IndexError
  end.

(** The loop that assembles the results. *)
Fixpoint collect_hits (cs ss : list string) (sims : list scalar)
    (idxs : list nat) : result (list Hit) :=
  match idxs with
  | [] => Ok []
  | idx :: rest =>
      match getitem cs idx, getitem ss idx, getitem sims idx with
      | Ok c, Ok s, Ok x =>
          match collect_hits cs ss sims rest with
          | Ok hits => Ok (mkHit c s x :: hits)
          | Raise e => Raise e
          end
      | Raise e, _, _ | _, Raise e, _ | _, _, Raise e => Raise e
      end
  end.

(** [MiniRAG.query] *)
Definition query (question : string) (k : Z) : M (list Hit) :=
  fun self =>
    let q_hash := _hash question in
    match query_cache self !! q_hash with
    | Some cached => (Ok cached, self)
    | None =>
        if (length (chunks self) =? 0)%nat then (Ok [], self)
        else
          (do q_emb <- model_encode question;
           fun self =>
             let sims := cosine_sims (embeddings self) q_emb in
             let idxs := rev (Py.slice (argsort sims) (Some (- k)) None) in
             match collect_hits (chunks self) (sources self) sims idxs with
             | Raise e => (Raise e, self)
             | Ok results =>
                 (Ok results,
                  set_query_cache (<[q_hash := results]> (query_cache self)) self)
             end) self
    end.

(** [MiniRAG.clear_query_cache] *)
Definition clear_query_cache : M unit :=
  fun self => (Ok tt, set_query_cache ∅ self).

End Engine.

Arguments Row : clear implicits.
Arguments Database : clear implicits.
Arguments Connection : clear implicits.
Arguments Matrix : clear implicits.
Arguments Hit : clear implicits.
Arguments MiniRAG : clear implicits.

(** ** Two numeric kernels *)

(** Exact arithmetic on the reals: arrays are lists of reals. *)
Module RealKernel.

Definition dot (a b : list R) : R :=
  foldr Rplus 0%R (zip_with Rmult a b).

Definition norm (a : list R) : R := R_sqrt.sqrt (dot a a).

Definition leb (x y : R) : bool := if Rle_dec x y then true else false.

#[global] Instance kernel : NumPy := {|
  scalar := R;
  vec := list R;
  np_dot := dot;
  np_norm := norm;
  fadd := Rplus;
  fmul := Rmult;
  fdiv := Rdiv;
  lit_1e_12 := (/ 10 ^ 12)%R;
  fleb := leb
|}.

End RealKernel.

(** Machine floats (binary64), to run the engine on concrete inputs. *)
Module FloatKernel.

Definition dot (a b : list PrimFloat.float) : PrimFloat.float :=
  foldl PrimFloat.add 0%float (zip_with PrimFloat.mul a b).

Definition norm (a : list PrimFloat.float) : PrimFloat.float :=
  PrimFloat.sqrt (dot a a).

#[global] Instance kernel : NumPy := {|
  scalar := PrimFloat.float;
  vec := list PrimFloat.float;
  np_dot := dot;
  np_norm := norm;
  fadd := PrimFloat.add;
  fmul := PrimFloat.mul;
  fdiv := PrimFloat.div;
  lit_1e_12 := 0x1.19799812dea11p-40%float;   (* the binary64 nearest to 1e-12 *)
  fleb := PrimFloat.leb
|}.

End FloatKernel.

(** ** Stand-ins for the external services, for concrete runs

    The digests are the identity (an injective digest); the model embeds
    a text by a table and fails on the texts the table does not have. *)
Definition table_services (K : NumPy) (dim : nat) (table : list (string * vec))
    : Services K := {|
  sha1_hex := fun s => s;
  md5_hex := fun s => s;
  encode := fun _ text =>
    snd <$> List.find (fun p => String.eqb (fst p) text) table;
  get_sentence_embedding_dimension := dim
|}.

(** ** Concrete runs *)

(** On machine floats: two files, one chunk each, and a model that knows
    their texts and the question ["q"]. *)
Module Demo.

Definition q_emb : @vec FloatKernel.kernel := [1%float; 0%float].

Definition table : list (string * list PrimFloat.float) :=
  [("alpha beta"%string, [1%float; 0%float]);
   ("gamma"%string, [0%float; 1%float]);
   ("q"%string, q_emb)].

#[global] Instance services : Services FloatKernel.kernel :=
  table_services FloatKernel.kernel 2 table.

Definition folder : gmap string string :=
  {[ "a.txt"%string := "alpha beta"%string; "b.md"%string := "gamma"%string ]}.

Definition empty_db : Database FloatKernel.kernel := mkDatabase [] 0 ∅.

(** The engine after its construction on the folder and an empty store. *)
Definition engine : MiniRAG FloatKernel.kernel := snd (__init__ folder empty_db).

(** The store it leaves, and the folder after [a.txt] is rewritten with
    a text the model fails on. *)
Definition db1 : Database FloatKernel.kernel := committed (conn engine).

Definition folder2 : gmap string string := <["a.txt"%string := "delta"%string]> folder.

(** The first answer to ["q"] with [k = 1], and the engine after it. *)
Definition hits1 : list (Hit FloatKernel.kernel) :=
  match fst (query "q" 1 engine) with
  | Ok hits => hits
  | Raise _ => []
  end.

Definition engine1 : MiniRAG FloatKernel.kernel := snd (query "q" 1 engine).

End Demo.

(** On the reals: the same index, written out. *)
Module RealDemo.

Definition q_emb : @vec RealKernel.kernel := [1%R; 0%R].

Definition table : list (string * list R) :=
  [("q"%string, q_emb)].

#[global] Instance services : Services RealKernel.kernel :=
  table_services RealKernel.kernel 2 table.

Definition engine : MiniRAG RealKernel.kernel :=
  @mkMiniRAG RealKernel.kernel
    (mkConnection (mkDatabase [] 0 ∅) (mkDatabase [] 0 ∅)) []
    ["alpha beta"%string; "gamma"%string]
    ["a.txt"%string; "b.md"%string]
    (@mkMatrix RealKernel.kernel [[1%R; 0%R]; [0%R; 1%R]] 2) ∅.

End RealDemo.

(** ** Vocabulary of the statements *)

(** A word: a non-empty run of characters that are not whitespace. *)
Definition is_word (w : list ascii) : Prop :=
  w <> [] /\ Forall (fun c => Py.is_space c = false) w.

(** The characters of [" ".join(ws)]. *)
Fixpoint join_chars (ws : list (list ascii)) : list ascii :=
  match ws with
  | [] => []
  | [w] => w
  | w :: ws' => w ++ " "%char :: join_chars ws'
  end.

(** The consecutive windows of [w] elements of a list, [cnt] of them. *)
Definition windows {A} (w cnt : nat) (l : list A) : list (list A) :=
  map (fun j => firstn w (skipn (j * w) l)) (seq 0 cnt).

Section Vocabulary.

Context {K : NumPy} {S : Services K}.

(** The three parallel structures of the in-memory index have one length. *)
Definition aligned (self : MiniRAG K) : Prop :=
  length (chunks self) = length (sources self) /\
  length (sources self) = length (mat_rows (embeddings self)).

(** The in-memory index is the image of the rows the cursor sees. *)
Definition mirrors_store (self : MiniRAG K) : Prop :=
  chunks self = map row_chunk (documents (working (conn self))) /\
  sources self = map row_source (documents (working (conn self))) /\
  mat_rows (embeddings self) = map row_embedding (documents (working (conn self))) /\
  mat_cols (embeddings self) = get_sentence_embedding_dimension.

(** No transaction is open: what is durable is what the cursor sees. *)
Definition clean (self : MiniRAG K) : Prop :=
  committed (conn self) = working (conn self).

(** The ChunkRecords of one file, and of all the other files. *)
Definition rows_of (f : string) (d : Database K) : list (Row K) :=
  filter (fun r => row_source r = f) (documents d).

Definition rows_except (f : string) (d : Database K) : list (Row K) :=
  filter (fun r => row_source r <> f) (documents d).

(** The digests of the eligible files of a folder: what the ledger must be
    once the folder is reconciled. *)
Definition digests (fs : gmap string string) : gmap string string :=
  _sha1 <$> filter (fun p => eligible (fst p) = true) fs.

(** Scores ranked from the best down. *)
Definition ranked (hits : list (Hit K)) : Prop :=
  StronglySorted (fun h1 h2 => fleb (score h2) (score h1) = true) hits.

(** The fields that only [_load_from_db] and [query] write. *)
Definition same_memory (self self' : MiniRAG K) : Prop :=
  chunks self' = chunks self /\ sources self' = sources self /\
  embeddings self' = embeddings self /\ query_cache self' = query_cache self.

(** [d'] is [d] with rows of file [f] appended, the ledger as it was. *)
Definition grows (f : string) (d d' : Database K) : Prop :=
  files_meta d' = files_meta d /\
  exists new, documents d' = documents d ++ new /\
              Forall (fun r => row_source r = f) new.

(** File [g] has the same rows and the same ledger entry in [d'] as in [d]. *)
Definition same_file (g : string) (d d' : Database K) : Prop :=
  rows_of g d' = rows_of g d /\ files_meta d' !! g = files_meta d !! g.

(** In the "add new or updated" loop over [items], file [g] is passed
    over: it is not among the items, or the ledger has its digest. *)
Definition untouched (stored : gmap string string)
    (items : list (string * string)) (g : string) : Prop :=
  g ∉ map fst items \/ exists sha, (g, sha) ∈ items /\ stored !! g = Some sha.

(** [current_meta.items()] for a folder. *)
Definition current_items (fs : gmap string string) : list (string * string) :=
  map (fun p => (fst p, _sha1 (snd p)))
      (filter (fun p => eligible (fst p) = true) (map_to_list fs)).

(** The order of the keys [argsort] sorts. *)
Definition le_key (p q : nat * scalar) : Prop := fleb (snd p) (snd q) = true.

(** The indices [query] selects, with their scores: the tail of the sorted
    keys, best first. *)
Definition selected (sims : list scalar) (k : Z) : list (nat * scalar) :=
  rev (skipn (Z.to_nat (Py.clamp_index (Z.of_nat (length sims)) (- k)))
             (sort_keys (combine (seq 0 (length sims)) sims))).

End Vocabulary.

(** ** The chat front end: [bot.py]

    The handlers are modelled as functions of the process state: the
    engine [rag], the per-user history and the log of the prompts sent to
    the hosted language model.  A handler sends one reply on every path
    that returns. *)

(** The line feed, and [s[:n]] and [s.replace(a, b)] for characters. *)
Definition nl : string := String "010"%char EmptyString.

Definition str_prefix (n : Z) (s : string) : string :=
  string_of_list_ascii (Py.slice (list_ascii_of_string s) None (Some n)).

Definition str_replace_char (a b : ascii) (s : string) : string :=
  string_of_list_ascii
    (map (fun c => if Ascii.eqb c a then b else c) (list_ascii_of_string s)).

(** What [bot.py] takes from outside: the literal [0.50] as a score; the
    hosted language model, which answers a prompt with a content or raises
    with a message, and may depend on the prompts sent so far; and the
    f-string of [ask] that wraps the context and the question in a fixed
    text. *)
Class BotServices (K : NumPy) : Type := {
  lit_0_50 : scalar;
  chat_completion : list string -> string -> string + string;
  ask_prompt : string -> string -> string
}.

Section Bot.

Context {K : NumPy} {S : Services K} {B : BotServices K}.

(** A reply: [reply_text] of a plain text, or the final message of [ask],
    which renders the answer, then for every source its name, its score
    (with two decimals) and its snippet, then the elapsed time. *)
Inductive Reply : Type :=
  | Text (s : string)
  | Sources (answer : string) (shown : list (string * scalar * string)).

(** The state of the process: [rag], [user_history], and the prompts sent
    through [hf_client], oldest first. *)
Record Bot : Type := mkBot {
  rag : MiniRAG K;
  user_history : gmap Z (list string);
  llm_calls : list string
}.

(** [add_history] *)
Definition add_history (uid : Z) (text : string)
    (history : gmap Z (list string)) : gmap Z (list string) :=
  let hist := default [] (history !! uid) ++ [text] in
  let hist := if (3 <? length hist)%nat then Py.slice hist (Some (-3)) None
              else hist in
  <[uid := hist]> history.

(** [call_hf_llm]: every exception is caught and turned into a text. *)
Definition call_hf_llm (prompt : string) (bot : Bot) : string * Bot :=
  let bot' := mkBot (rag bot) (user_history bot) (llm_calls bot ++ [prompt]) in
  match chat_completion (llm_calls bot) prompt with
  | inl content => (Py.strip content, bot')
  | inr e => ("HF API Error: " +:+ e, bot')
  end.

(** The sources [ask] keeps of a non-empty retrieval: the results with a
    score of at least 0.50, or the best result alone if there is none. *)
Definition select_context (best : Hit K) (retrieved : list (Hit K))
    : list (Hit K) :=
  match List.filter (fun r => fleb lit_0_50 (score r)) retrieved with
  | [] => [best]
  | filtered => filtered
  end.

(** [r["chunk"][:80].replace("\n", " ")] *)
Definition snippet (chunk_text : string) : string :=
  str_replace_char "010"%char " "%char (str_prefix 80 chunk_text).

(** [ask], for the arguments of the command and the id of the user *)
Definition ask (args : list string) (user_id : Z) (bot : Bot)
    : result Reply * Bot :=
  match args with
  | [] => (Ok (Text "Usage: /ask <question>"), bot)
  | _ =>
      let question := Py.join " " args in
      let history := add_history user_id question (user_history bot) in
      match query question 5 (rag bot) with
      | (Raise e, rag') => (Raise e, mkBot rag' history (llm_calls bot))
      | (Ok retrieved, rag') =>
          let bot1 := mkBot rag' history (llm_calls bot) in
          match retrieved with
          | [] => (Ok (Text "No relevant information found."), bot1)
          | best :: _ =>
              let filtered := select_context best retrieved in
              let context_txt := Py.join (nl +:+ nl) (map chunk filtered) in
              let prompt := ask_prompt context_txt question in
              let '(answer, bot2) := call_hf_llm prompt bot1 in
              (Ok (Sources answer
                     (map (fun r => (source r, score r, snippet (chunk r)))
                          filtered)),
               bot2)
          end
      end
  end.

(** [summarize] *)
Definition summarize (uid : Z) (bot : Bot) : Reply * Bot :=
  match default [] (user_history bot !! uid) with
  | [] => (Text "No recent messages.", bot)
  | hist =>
      let prompt := "Summarize the following in a short paragraph:"
                    +:+ nl +:+ nl +:+ Py.join nl hist in
      let '(summary, bot') := call_hf_llm prompt bot in
      (Text ("Summary:" +:+ nl +:+ summary), bot')
  end.

(** The start of the process: [rag = MiniRAG(...)], an empty history. *)
Definition start (fs : gmap string string) (db : Database K) : result Bot :=
  match __init__ fs db with
  | (Ok _, engine) => Ok (mkBot engine ∅ [])
  | (Raise e, _) => Raise e
  end.

(** The history after a sequence of questions, each with its user. *)
Definition history_after (events : list (Z * string))
    (history : gmap Z (list string)) : gmap Z (list string) :=
  foldl (fun h e => add_history (fst e) (snd e) h) history events.

End Bot.

Arguments Reply : clear implicits.
Arguments Bot : clear implicits.

(** The last [n] elements of a list. *)
Definition last_n {A} (n : nat) (l : list A) : list A :=
  skipn (length l - n) l.

(** ** Vocabulary of the further statements *)

(** The first character is not whitespace. *)
Definition head_nonspace (l : list ascii) : Prop :=
  match l with
  | c :: _ => Py.is_space c = false
  | [] => False
  end.

(** A string that [strip] leaves as it is, and that is not empty. *)
Definition trimmed (c : string) : Prop :=
  Py.strip c = c /\ c <> ""%string.

Section MoreVocabulary.

Context {K : NumPy} {S : Services K}.

(** The chunks of a file's content, with the default window. *)
Definition chunks_of (content : string) : list string :=
  match _chunk_text content CHUNK_SIZE with
  | Ok cs => cs
  | Raise _ => []
  end.

(** Row [r] is the ChunkRecord of the chunk [c] of file [f]: its source,
    its text, the digest of the text, and an answer of the embedding model
    for the text. *)
Definition row_holds (f : string) (r : Row K) (c : string) : Prop :=
  row_source r = f /\ row_chunk r = c /\ row_chunk_hash r = _sha1 c /\
  exists calls, encode calls c = Some (row_embedding r).

(** The store agrees with its ledger: the rows of a tracked file are the
    ChunkRecords of the chunks of a content with the recorded digest, and a
    file that is not tracked has no rows. *)
Definition reflects (d : Database K) : Prop :=
  forall f,
    match files_meta d !! f with
    | Some sha =>
        exists c, sha = _sha1 c /\ Forall2 (row_holds f) (rows_of f d) (chunks_of c)
    | None => rows_of f d = []
    end.

(** The texts a pass has to embed for one item of [current_meta]:
    the chunks of the file, unless the ledger has its digest. *)
Definition work_of (fs stored : gmap string string) (item : string * string)
    : list string :=
  let texts := match fs !! fst item with
               | Some c => chunks_of c
               | None => []
               end in
  match stored !! fst item with
  | Some old => if String.eqb old (snd item) then [] else texts
  | None => texts
  end.

End MoreVocabulary.

(** ** Concrete runs of the chat front end *)

(** The prompt of [ask], with the typographic quotes of its last line left
    out. *)
Definition demo_prompt (context_txt question : string) : string :=
  nl +:+ "Use ONLY the context below to answer." +:+ nl +:+ nl +:+
  "Context:" +:+ nl +:+ context_txt +:+ nl +:+ nl +:+
  "Question:" +:+ nl +:+ question +:+ nl +:+ nl +:+
  "If answer isn't in context, say I don't know." +:+ nl.

(** On machine floats: the engine of [Demo], and a language model whose
    answer depends on whether it has been asked before. *)
Module BotDemo.

#[global] Instance bot_services : BotServices FloatKernel.kernel := {|
  lit_0_50 := 0.5%float;
  chat_completion := fun sent prompt =>
    inl (match sent with
         | [] => " a first answer "
         | _ => " another answer "
         end);
  ask_prompt := demo_prompt
|}.

Definition bot : Bot FloatKernel.kernel := mkBot Demo.engine ∅ [].

(** The reply to the first [/ask q] of user 7, and the process after it. *)
Definition reply1 : Reply FloatKernel.kernel :=
  match fst (ask ["q"%string] 7 bot) with
  | Ok r => r
  | Raise _ => Text ""
  end.

Definition bot1 : Bot FloatKernel.kernel := snd (ask ["q"%string] 7 bot).

(** A folder without an eligible file. *)
Definition other_folder : gmap string string :=
  {[ "notes.pdf"%string := "alpha beta"%string ]}.

(** Questions of two users, in the order of their arrival. *)
Definition events : list (Z * string) :=
  [(1, "a"); (2, "b"); (1, "c"); (1, "d"); (1, "e")]%string.

Definition asked : Bot FloatKernel.kernel :=
  mkBot Demo.engine (history_after events ∅) [].

End BotDemo.

(** On the reals. *)
Module RealBotDemo.

#[global] Instance bot_services : BotServices RealKernel.kernel := {|
  lit_0_50 := (/ 2)%R : @scalar RealKernel.kernel;
  chat_completion := fun sent prompt =>
    inl (match sent with
         | [] => " a first answer "
         | _ => " another answer "
         end);
  ask_prompt := demo_prompt
|}.

Definition bot : Bot RealKernel.kernel := mkBot RealDemo.engine ∅ [].

End RealBotDemo.

(** * Properties *)

(** ** The primitives on concrete inputs *)

Example split_demo :
  Py.split "  alpha	beta
 gamma " = ["alpha"; "beta"; "gamma"]%string.
Proof. reflexivity. Qed.

Example strip_demo : Py.strip "  a b 	" = "a b"%string.
Proof. reflexivity. Qed.

Example slice_demo :
  Py.slice [1; 2; 3; 4] (Some (-2)) None = [3; 4] /\
  Py.slice [1; 2; 3; 4] (Some (-9)) None = [1; 2; 3; 4] /\
  Py.slice [1; 2; 3; 4] (Some 0) None = [1; 2; 3; 4] /\
  Py.slice [1; 2; 3; 4] (Some 1) None = [2; 3; 4] /\
  Py.slice [1; 2; 3; 4] (Some 2) (Some 9) = [3; 4].
Proof. repeat split. Qed.

Example range_demo :
  Py.range 0 5 2 = Ok [0; 2; 4] /\ Py.range 0 4 2 = Ok [0; 2] /\
  Py.range 0 0 2 = Ok [] /\ Py.range 0 5 (-1) = Ok [] /\
  Py.range 0 5 0 = Raise ValueError.
Proof. repeat split. Qed.

Example eligible_demo :
  eligible "Notes.TXT" = true /\ eligible "readme.md" = true /\
  eligible "data.bin" = false /\ eligible "txt" = false.
Proof. repeat split. Qed.

Example chunk_text_demo :
  _chunk_text " a bb  c dd e " 2 = Ok ["a bb"; "c dd"; "e"]%string /\
  _chunk_text "   " 2 = Ok [] /\
  _chunk_text "a b" 0 = Raise ValueError.
Proof. repeat split. Qed.

(** The engine constructed on two files: one row per file, the ledger
    with both digests, and the best match for ["q"]. *)
Example engine_demo :
  map (fun r => (row_id r, row_source r, row_chunk r))
      (documents (committed (conn Demo.engine))) =
    [(1, "a.txt", "alpha beta"); (2, "b.md", "gamma")]%string /\
  map_to_list (files_meta (committed (conn Demo.engine))) =
    [("a.txt", "alpha beta"); ("b.md", "gamma")]%string /\
  map (fun h => (chunk h, source h)) Demo.hits1 = [("alpha beta", "a.txt")]%string.
Proof. vm_compute. repeat split. Qed.

(** ** Membership in [map] *)

Lemma map_elem_intro {A B} (f : A -> B) (l : list A) x :
  x ∈ l -> f x ∈ map f l.
Proof. intros H. apply list_elem_of_In, in_map. by apply list_elem_of_In. Qed.

Lemma map_elem_inv {A B} (f : A -> B) (l : list A) y :
  y ∈ map f l -> exists x, f x = y /\ x ∈ l.
Proof.
  intros H. apply list_elem_of_In, in_map_iff in H as (x & Hx & Hin).
  exists x. split; [done|]. by apply list_elem_of_In.
Qed.

(** ** Splitting and joining *)

Lemma split_from_words cur s :
  Forall (fun c => Py.is_space c = false) cur ->
  Forall is_word (Py.split_from cur s).
Proof.
  revert cur. induction s as [|c s IH]; intros cur Hcur; cbn.
  - destruct cur; [constructor|]. constructor; [|constructor]. by split.
  - destruct (Py.is_space c) eqn:E.
    + destruct cur; [by apply IH|].
      constructor; [by split|]. by apply IH.
    + apply IH. apply Forall_app. split; [done|]. by constructor.
Qed.

Lemma split_from_word cur w rest :
  Forall (fun c => Py.is_space c = false) w ->
  Py.split_from cur (w ++ rest) = Py.split_from (cur ++ w) rest.
Proof.
  intros Hw. revert cur. induction Hw as [|c w Hc Hw IH]; intros cur; cbn.
  - by rewrite app_nil_r.
  - rewrite Hc, IH, <- app_assoc. done.
Qed.

Lemma split_join_chars ws :
  Forall is_word ws -> Py.split_from [] (join_chars ws) = ws.
Proof.
  induction 1 as [|w ws [Hne Hw] Hws IH]; [reflexivity|].
  destruct ws as [|w2 ws].
  - cbn. rewrite <- (app_nil_r w) at 1. rewrite split_from_word by done.
    cbn. by destruct w.
  - change (join_chars (w :: w2 :: ws)) with (w ++ " "%char :: join_chars (w2 :: ws)).
    rewrite split_from_word by done. cbn [app Py.split_from].
    change (Py.is_space " ") with true. cbn iota.
    rewrite IH. by destruct w.
Qed.

Lemma list_ascii_of_string_app s1 s2 :
  list_ascii_of_string (s1 +:+ s2) =
  list_ascii_of_string s1 ++ list_ascii_of_string s2.
Proof.
  induction s1 as [|c s1 IH]; [reflexivity|].
  change (list_ascii_of_string (String c s1 +:+ s2))
    with (c :: list_ascii_of_string (s1 +:+ s2)).
  rewrite IH. reflexivity.
Qed.

Lemma join_strings ws :
  list_ascii_of_string (Py.join " " (map string_of_list_ascii ws)) =
  join_chars ws.
Proof.
  induction ws as [|w ws IH]; [reflexivity|].
  destruct ws as [|w2 ws].
  - cbn. apply list_ascii_of_string_of_list_ascii.
  - change (Py.join " " (map string_of_list_ascii (w :: w2 :: ws)))
      with (string_of_list_ascii w +:+ " " +:+
            Py.join " " (map string_of_list_ascii (w2 :: ws))).
    rewrite !list_ascii_of_string_app, IH, list_ascii_of_string_of_list_ascii.
    reflexivity.
Qed.

(** Joining words with one space and splitting again gives the words. *)
Lemma split_join ws :
  Forall is_word ws ->
  Py.split (Py.join " " (map string_of_list_ascii ws)) =
  map string_of_list_ascii ws.
Proof.
  intros H. unfold Py.split. by rewrite join_strings, split_join_chars.
Qed.

Lemma split_whitespace s :
  forallb Py.is_space s = true -> Py.split_from [] s = [].
Proof.
  induction s as [|c s IH]; cbn; [done|].
  intros H. apply andb_prop in H as [-> H]. by apply IH.
Qed.

(** ** Windows *)

Lemma slice_window {A} (l : list A) (i w : Z) :
  0 <= i -> 0 <= w ->
  Py.slice l (Some i) (Some (i + w)) =
  firstn (Z.to_nat w) (skipn (Z.to_nat i) l).
Proof.
  intros Hi Hw. unfold Py.slice, Py.clamp_index.
  destruct (Z.ltb_spec i 0); [lia|]. destruct (Z.ltb_spec (i + w) 0); [lia|].
  set (n := Z.of_nat (length l)).
  destruct (Z.le_gt_cases n i) as [Hge|Hlt].
  - rewrite !skipn_all2 by lia. by rewrite !firstn_nil.
  - replace (Z.min i n) with i by lia.
    destruct (Z.le_gt_cases (i + w) n).
    + by replace (Z.min (i + w) n - i) with w by lia.
    + rewrite !firstn_all2; [done | | ]; rewrite length_skipn; lia.
Qed.

Lemma windows_concat {A} (w cnt : nat) (l : list A) :
  (length l <= cnt * w)%nat -> concat (windows w cnt l) = l.
Proof.
  unfold windows. revert l. induction cnt as [|cnt IH]; intros l Hl.
  - cbn. destruct l; [done | cbn in Hl; lia].
  - cbn [seq map concat]. rewrite <- seq_shift, map_map.
    etrans; [|apply (firstn_skipn w l)]. cbn [Nat.mul Nat.add skipn]. f_equal.
    rewrite <- (IH (skipn w l)) by (rewrite length_skipn; lia).
    f_equal. apply map_ext. intros j.
    rewrite skipn_skipn. do 2 f_equal. lia.
Qed.

Lemma windows_length {A} (w cnt : nat) (l : list A) : length (windows w cnt l) = cnt.
Proof. unfold windows. by rewrite length_map, length_seq. Qed.

Lemma windows_lookup {A} (w cnt : nat) (l : list A) j x :
  windows w cnt l !! j = Some x ->
  (j < cnt)%nat /\ x = firstn w (skipn (j * w) l).
Proof.
  unfold windows. change (map ?f ?l) with (f <$> l).
  rewrite list_lookup_fmap. intros H.
  apply fmap_Some in H as (i & Hi & ->).
  apply lookup_seq in Hi as [-> Hlt]. done.
Qed.


Lemma windows_map {A B} (f : A -> B) (w cnt : nat) (l : list A) :
  windows w cnt (map f l) = map (map f) (windows w cnt l).
Proof.
  unfold windows. rewrite map_map. apply map_ext. intros j.
  by rewrite skipn_map, firstn_map.
Qed.

Lemma windows_Forall {A} (P : A -> Prop) (w cnt : nat) (l : list A) :
  Forall P l -> Forall (Forall P) (windows w cnt l).
Proof.
  intros H. unfold windows. apply Forall_forall. intros x Hx.
  apply map_elem_inv in Hx as (j & <- & _).
  by apply Forall_take, Forall_drop.
Qed.

(** ** The chunker *)

(** The number of chunks, [ceil(N/W)]. *)
Lemma ceil_div_bounds N W :
  0 <= N -> 1 <= W ->
  let L := (N + W - 1) / W in
  0 <= L /\ N <= L * W /\ (L - 1) * W < N \/ (N = 0 /\ L = 0).
Proof.
  intros HN HW L.
  destruct (Z.eq_dec N 0) as [->|Hne].
  - right. split; [done|]. subst L. apply Z.div_small. lia.
  - left. subst L.
    pose proof (Z.mul_div_le (N + W - 1) W ltac:(lia)).
    pose proof (Z.mul_succ_div_gt (N + W - 1) W ltac:(lia)).
    assert (0 <= (N + W - 1) / W) by (apply Z.div_pos; lia).
    repeat split; nia.
Qed.

Lemma chunk_text_windows text W :
  1 <= W ->
  let words := Py.split text in
  _chunk_text text W =
  Ok (map (Py.join " ")
          (windows (Z.to_nat W)
                   (Z.to_nat ((Z.of_nat (length words) + W - 1) / W)) words)).
Proof.
  intros HW words. unfold _chunk_text, Py.range, Py.range_len. fold words.
  destruct (Z.eqb_spec W 0); [lia|]. destruct (Z.ltb_spec 0 W); [|lia].
  f_equal. unfold windows. rewrite !map_map.
  replace (Z.max 0 ((Z.of_nat (length words) - 0 + W - 1) / W))
    with ((Z.of_nat (length words) + W - 1) / W).
  2:{ rewrite Z.sub_0_r. symmetry. apply Z.max_r. apply Z.div_pos; lia. }
  apply map_ext. intros j. f_equal.
  rewrite slice_window by lia. do 2 f_equal.
  rewrite Z.add_0_l, Z2Nat.inj_mul, Nat2Z.id by lia. done.
Qed.

(** C3: for a window size [W >= 1], the chunker returns [ceil(N/W)]
    chunks for a text of [N] words; every chunk but the last has exactly
    [W] words; the words of the chunks, in order, are the words of the
    text; and a text that is empty or all whitespace gives no chunk. *)
Theorem chunk_text_spec text W :
  1 <= W ->
  let words := Py.split text in
  let N := Z.of_nat (length words) in
  exists chunks,
    _chunk_text text W = Ok chunks /\
    Z.of_nat (length chunks) = (N + W - 1) / W /\
    (forall i c, chunks !! i = Some c -> (Datatypes.S i < length chunks)%nat ->
       Z.of_nat (length (Py.split c)) = W) /\
    concat (map Py.split chunks) = words /\
    (forallb Py.is_space (list_ascii_of_string text) = true -> chunks = []).
Proof.
  intros HW words N. eexists. split; [by apply chunk_text_windows|].
  fold words. fold N.
  set (raw := Py.split_from [] (list_ascii_of_string text)).
  assert (words = map string_of_list_ascii raw) as Hwords by reflexivity.
  assert (Forall is_word raw) as Hraw by (apply split_from_words; constructor).
  assert (N = Z.of_nat (length raw)) as HN by (subst N; by rewrite Hwords, length_map).
  set (L := (N + W - 1) / W).
  assert (0 <= N) as HN0 by lia.
  pose proof (ceil_div_bounds N W HN0 HW) as Hceil. cbn zeta in Hceil. fold L in Hceil.
  assert (0 <= L) as HL by lia.
  rewrite Hwords, windows_map, map_map.
  assert (map Py.split
            (map (fun x => Py.join " " (map string_of_list_ascii x))
                 (windows (Z.to_nat W) (Z.to_nat L) raw)) =
          map (map string_of_list_ascii) (windows (Z.to_nat W) (Z.to_nat L) raw))
    as Hsplit.
  { rewrite map_map. apply map_ext_Forall.
    eapply Forall_impl; [apply (windows_Forall _ _ _ _ Hraw)|].
    intros x Hx. by apply split_join. }
  split; [|split; [|split]].
  - rewrite length_map, windows_length. lia.
  - rewrite length_map, windows_length. intros i c Hi Hlt.
    change (map ?f ?l) with (f <$> l) in Hi. rewrite list_lookup_fmap in Hi.
    apply fmap_Some in Hi as (x & Hx & ->).
    apply windows_lookup in Hx as [_ ->].
    rewrite split_join by by apply Forall_take, Forall_drop.
    rewrite length_map, length_firstn, length_skipn.
    assert (Z.of_nat i + 1 <= L - 1) by lia. nia.
  - rewrite Hsplit, <- concat_map. f_equal. apply windows_concat. nia.
  - intros Hws. apply split_whitespace in Hws. fold raw in Hws.
    apply length_zero_iff_nil. rewrite length_map, windows_length.
    assert (N = 0) as HN' by (rewrite HN, Hws; reflexivity).
    destruct Hceil as [(_ & _ & Hlt)|[_ Hz]]; nia.
Qed.

Section EngineFacts.

Context {K : NumPy} {S : Services K}.

Lemma mirrors_aligned self : mirrors_store self -> aligned self.
Proof.
  intros (Hc & Hs & He & _). unfold aligned.
  rewrite Hc, Hs, He, !length_map. auto.
Qed.

Lemma load_mirrors self :
  fst (_load_from_db self) = Ok tt /\ mirrors_store (snd (_load_from_db self)).
Proof.
  unfold _load_from_db, mirrors_store. cbn.
  repeat split; destruct (documents (working (conn self))); reflexivity.
Qed.

Lemma load_frame self :
  conn (snd (_load_from_db self)) = conn self /\
  encode_calls (snd (_load_from_db self)) = encode_calls self /\
  query_cache (snd (_load_from_db self)) = query_cache self.
Proof. unfold _load_from_db. cbn. auto. Qed.

(** ** The query engine: cache and frame *)

Lemma query_hit question k self cached :
  query_cache self !! _hash question = Some cached ->
  query question k self = (Ok cached, self).
Proof. intros H. unfold query. rewrite H. reflexivity. Qed.

Lemma query_empty question k self :
  query_cache self !! _hash question = None ->
  chunks self = [] ->
  query question k self = (Ok [], self).
Proof. intros H Hc. unfold query. rewrite H, Hc. reflexivity. Qed.

(** On a miss with chunks in the index, the oracle is called once; its
    failure is the failure of the query, and otherwise the query is decided
    by the ranking of the similarity scores. *)
Lemma query_miss question k self :
  query_cache self !! _hash question = None ->
  chunks self <> [] ->
  let self1 := set_encode_calls (encode_calls self ++ [question]) self in
  match encode (encode_calls self) question with
  | None => query question k self = (Raise OracleError, self1)
  | Some q_emb =>
      let sims := cosine_sims (embeddings self) q_emb in
      let idxs := rev (Py.slice (argsort sims) (Some (- k)) None) in
      match collect_hits (chunks self) (sources self) sims idxs with
      | Raise e => query question k self = (Raise e, self1)
      | Ok results =>
          query question k self =
          (Ok results,
           set_query_cache (<[_hash question := results]> (query_cache self)) self1)
      end
  end.
Proof.
  intros H Hc. unfold query. rewrite H.
  destruct (chunks self) as [|c cs] eqn:E; [congruence|]. cbn [length Nat.eqb].
  unfold bind, model_encode.
  destruct (encode (encode_calls self) question) as [q|]; cbn; [|reflexivity].
  rewrite E. destruct (collect_hits _ _ _ _); reflexivity.
Qed.

(** ** Slices from an index to the end *)

Lemma slice_from {A} (l : list A) (s : Z) :
  Py.slice l (Some s) None =
  skipn (Z.to_nat (Py.clamp_index (Z.of_nat (length l)) s)) l.
Proof.
  unfold Py.slice. apply firstn_all2. rewrite length_skipn. lia.
Qed.

Lemma length_slice_last {A} (l : list A) (k : Z) :
  length (Py.slice l (Some (- k)) None) =
  if 1 <=? k then Nat.min (Z.to_nat k) (length l)
  else (length l - Z.to_nat (- k))%nat.
Proof.
  rewrite slice_from, length_skipn. unfold Py.clamp_index.
  destruct (Z.leb_spec 1 k); destruct (Z.ltb_spec (- k) 0); lia.
Qed.

(** ** [argsort] *)

Lemma insert_key_perm p l : Permutation (insert_key p l) (p :: l).
Proof.
  induction l as [|q l IH]; cbn; [reflexivity|].
  destruct (fleb (snd p) (snd q)); [reflexivity|].
  rewrite IH. apply perm_swap.
Qed.

Lemma sort_keys_perm l : Permutation (sort_keys l) l.
Proof.
  induction l as [|p l IH]; cbn; [reflexivity|].
  rewrite insert_key_perm. by constructor.
Qed.

Lemma combine_seq_lookup (xs : list scalar) a i x :
  In (i, x) (combine (seq a (length xs)) xs) ->
  (a <= i)%nat /\ xs !! (i - a)%nat = Some x.
Proof.
  revert a. induction xs as [|y xs IH]; intros a; cbn; [tauto|].
  intros [Heq|Hin].
  - inversion Heq; subst. split; [lia|]. by rewrite Nat.sub_diag.
  - apply IH in Hin as [Hle Hl]. split; [lia|].
    replace (i - a)%nat with (Datatypes.S (i - Datatypes.S a)) by lia. exact Hl.
Qed.

Lemma combine_seq_fst (xs : list scalar) a :
  map fst (combine (seq a (length xs)) xs) = seq a (length xs).
Proof.
  revert a. induction xs as [|y xs IH]; intros a; cbn; [reflexivity|].
  by rewrite IH.
Qed.

Lemma argsort_perm xs : Permutation (argsort xs) (seq 0 (length xs)).
Proof.
  unfold argsort. rewrite sort_keys_perm. by rewrite combine_seq_fst.
Qed.

Lemma length_argsort xs : length (argsort xs) = length xs.
Proof. by rewrite (Permutation_length (argsort_perm xs)), length_seq. Qed.

Lemma sort_keys_lookup xs i x :
  In (i, x) (sort_keys (combine (seq 0 (length xs)) xs)) -> xs !! i = Some x.
Proof.
  intros Hin.
  apply (Permutation_in _ (sort_keys_perm _)) in Hin.
  apply combine_seq_lookup in Hin as [_ Hl]. by rewrite Nat.sub_0_r in Hl.
Qed.

Lemma insert_key_sorted `{!TotalOrder K} p l :
  StronglySorted le_key l -> StronglySorted le_key (insert_key p l).
Proof.
  induction l as [|q l IH]; cbn; intros Hs.
  - constructor; constructor.
  - apply StronglySorted_inv in Hs as [Hs Hq].
    destruct (fleb (snd p) (snd q)) eqn:E.
    + constructor; [by constructor|].
      constructor; [exact E|].
      eapply Forall_impl; [exact Hq|].
      intros r Hr. unfold le_key in *. by eapply fleb_trans.
    + constructor; [by apply IH|].
      apply (Permutation_Forall (Permutation_sym (insert_key_perm p l))).
      constructor; [|exact Hq].
      unfold le_key. destruct (fleb_total (snd p) (snd q)); congruence.
Qed.

Lemma sort_keys_sorted `{!TotalOrder K} l : StronglySorted le_key (sort_keys l).
Proof.
  induction l as [|p l IH]; cbn; [constructor|]. by apply insert_key_sorted.
Qed.

Lemma StronglySorted_skipn {A} (R : A -> A -> Prop) n l :
  StronglySorted R l -> StronglySorted R (skipn n l).
Proof.
  intros Hs. rewrite <- (firstn_skipn n l) in Hs.
  by apply StronglySorted_app_1_r in Hs.
Qed.

Lemma StronglySorted_rev {A} (R : A -> A -> Prop) l :
  StronglySorted R l -> StronglySorted (fun x y => R y x) (rev l).
Proof.
  induction 1 as [|x l Hs IH Hx]; cbn; [constructor|].
  apply StronglySorted_app; repeat split.
  - intros y z Hy Hz. apply list_elem_of_In, in_rev in Hy.
    apply list_elem_of_In in Hz. cbn in Hz. destruct Hz as [<-|[]].
    rewrite Forall_forall in Hx. apply Hx. by apply list_elem_of_In.
  - exact IH.
  - constructor; constructor.
Qed.

(** ** Assembling the results *)

Lemma collect_hits_pairs cs ss (sims : list scalar) (ps : list (nat * scalar)) :
  Forall (fun p => (fst p < length cs)%nat /\ (fst p < length ss)%nat /\
                   sims !! fst p = Some (snd p)) ps ->
  exists hits,
    collect_hits cs ss sims (map fst ps) = Ok hits /\
    map score hits = map snd ps /\
    Forall2 (fun h p => cs !! fst p = Some (chunk h) /\
                        ss !! fst p = Some (source h)) hits ps.
Proof.
  induction 1 as [|[i x] ps (Hc & Hs & Hx) Hps (hits & Hh & Hsc & Hf)]; cbn.
  - exists []. repeat split; constructor.
  - cbn in Hc, Hs, Hx. unfold getitem.
    apply lookup_lt_is_Some_2 in Hc as [c Hc], Hs as [s' Hs].
    rewrite Hc, Hs, Hx, Hh.
    exists (mkHit c s' x :: hits). cbn. rewrite Hsc.
    repeat split; constructor; auto.
Qed.

Lemma length_cosine_sims E q :
  length (cosine_sims E q) = length (mat_rows E).
Proof.
  unfold cosine_sims, cosine_norms.
  rewrite length_zip_with, !length_map. lia.
Qed.

Lemma selected_idxs sims k :
  rev (Py.slice (argsort sims) (Some (- k)) None) = map fst (selected sims k).
Proof.
  rewrite slice_from, length_argsort. unfold selected, argsort.
  by rewrite map_rev, <- skipn_map.
Qed.

Lemma selected_lookup sims k p :
  In p (selected sims k) ->
  (fst p < length sims)%nat /\ sims !! fst p = Some (snd p).
Proof.
  unfold selected. intros Hin. apply in_rev in Hin.
  assert (In p (sort_keys (combine (seq 0 (length sims)) sims))) as Hin'.
  { rewrite <- (firstn_skipn (Z.to_nat (Py.clamp_index (Z.of_nat (length sims)) (- k)))).
    apply in_or_app. by right. }
  destruct p as [i x]. apply sort_keys_lookup in Hin'. cbn.
  split; [by eapply lookup_lt_Some | done].
Qed.

Lemma length_selected sims k :
  length (selected sims k) =
  if 1 <=? k then Nat.min (Z.to_nat k) (length sims)
  else (length sims - Z.to_nat (- k))%nat.
Proof.
  rewrite <- (length_map fst), <- selected_idxs, length_rev.
  by rewrite length_slice_last, length_argsort.
Qed.

Lemma selected_sorted `{!TotalOrder K} sims k :
  StronglySorted (fun p q => le_key q p) (selected sims k).
Proof.
  unfold selected. apply StronglySorted_rev, StronglySorted_skipn, sort_keys_sorted.
Qed.

(** On an aligned index the assembly of the results cannot fail. *)
Lemma collect_selected self q_emb k :
  aligned self ->
  let sims := cosine_sims (embeddings self) q_emb in
  exists hits,
    collect_hits (chunks self) (sources self) sims
                 (rev (Py.slice (argsort sims) (Some (- k)) None)) = Ok hits /\
    map score hits = map snd (selected sims k) /\
    Forall2 (fun h p => chunks self !! fst p = Some (chunk h) /\
                        sources self !! fst p = Some (source h))
            hits (selected sims k).
Proof.
  intros [Hcs Hse] sims. rewrite selected_idxs.
  apply collect_hits_pairs. apply Forall_forall. intros p Hp.
  apply list_elem_of_In, selected_lookup in Hp as [Hlt Hl].
  subst sims. rewrite length_cosine_sims in Hlt.
  repeat split; [lia | lia | exact Hl].
Qed.

Lemma StronglySorted_map {A B} (f : A -> B) (R : B -> B -> Prop) l :
  StronglySorted R (map f l) <-> StronglySorted (fun a b => R (f a) (f b)) l.
Proof.
  induction l as [|a l IH]; cbn.
  - split; constructor.
  - rewrite !StronglySorted_cons, IH, Forall_map. tauto.
Qed.


(** What [query] returns on a miss, once the oracle has answered: the
    selected indices with their chunks, sources and scores. *)
Lemma query_miss_ok question k self q_emb :
  query_cache self !! _hash question = None ->
  chunks self <> [] ->
  aligned self ->
  encode (encode_calls self) question = Some q_emb ->
  let sims := cosine_sims (embeddings self) q_emb in
  exists results,
    query question k self =
      (Ok results,
       set_query_cache (<[_hash question := results]> (query_cache self))
         (set_encode_calls (encode_calls self ++ [question]) self)) /\
    map score results = map snd (selected sims k) /\
    map (fun h => (chunk h, source h)) results =
      map (fun i => (nth i (chunks self) ""%string, nth i (sources self) ""%string))
          (map fst (selected sims k)).
Proof.
  intros Hmiss Hne Hal Henc sims.
  pose proof (query_miss question k self Hmiss Hne) as Hq. cbn zeta in Hq.
  rewrite Henc in Hq.
  destruct (collect_selected self q_emb k Hal) as (hits & Hh & Hsc & Hf).
  cbn zeta in Hh. rewrite Hh in Hq. exists hits. split; [exact Hq|].
  split; [exact Hsc|]. fold sims in Hf. clear Hq Hh Hsc.
  induction Hf as [|h p hits ps [Hc Hs] Hf IH]; cbn; [reflexivity|].
  rewrite IH.
  rewrite (nth_lookup_Some _ _ ""%string _ Hc), (nth_lookup_Some _ _ ""%string _ Hs).
  reflexivity.
Qed.



(** C10: [query] writes nothing but the cache.  The connection (both
    tables, committed and uncommitted) and the in-memory index are as they
    were; on a hit or on an empty index the object is unchanged; on a miss
    with chunks in the index the embedding model is called once, a result
    that is returned is stored under the key of the question, and that is
    the only change to the cache (none if the query raises). *)
Theorem query_frame question k self :
  let r := fst (query question k self) in
  let self' := snd (query question k self) in
  (conn self' = conn self /\ chunks self' = chunks self /\
   sources self' = sources self /\ embeddings self' = embeddings self) /\
  (is_Some (query_cache self !! _hash question) \/ chunks self = [] ->
   self' = self) /\
  (query_cache self !! _hash question = None -> chunks self <> [] ->
   encode_calls self' = encode_calls self ++ [question] /\
   query_cache self' =
     match r with
     | Ok results => <[_hash question := results]> (query_cache self)
     | Raise _ => query_cache self
     end).
Proof.
  cbn zeta.
  destruct (query_cache self !! _hash question) as [cached|] eqn:Hc.
  - rewrite (query_hit _ k _ _ Hc). cbn. repeat split; done.
  - destruct (chunks self) as [|c cs] eqn:E.
    + rewrite (query_empty _ k _ Hc E). cbn. repeat split; done.
    + assert (chunks self <> []) as Hne by congruence.
      pose proof (query_miss question k self Hc Hne) as Hm. cbn zeta in Hm.
      destruct (encode (encode_calls self) question) as [q|];
        [destruct (collect_hits _ _ _ _) as [hits|e]|];
        rewrite Hm; cbn; (split; [by rewrite ?E|]);
        (split; [intros [[? ?]|?]; congruence | done]).
Qed.

(** [clear_query_cache] empties the cache and writes nothing else. *)
Lemma clear_query_cache_frame self :
  fst (clear_query_cache self) = Ok tt /\
  query_cache (snd (clear_query_cache self)) = ∅ /\
  conn (snd (clear_query_cache self)) = conn self /\
  encode_calls (snd (clear_query_cache self)) = encode_calls self /\
  chunks (snd (clear_query_cache self)) = chunks self /\
  sources (snd (clear_query_cache self)) = sources self /\
  embeddings (snd (clear_query_cache self)) = embeddings self.
Proof. by repeat split. Qed.

(** C8: a query that returned is answered again from its own result: the
    same text asked again (for any [k]) gives the same result, leaves the
    object as it is and, in particular, makes no call to the embedding
    model. *)
Theorem query_cache_memoizes question k k' self results self1 :
  query question k self = (Ok results, self1) ->
  query question k' self1 = (Ok results, self1) /\
  encode_calls (snd (query question k' self1)) = encode_calls self1.
Proof.
  intros H.
  assert (query question k' self1 = (Ok results, self1)) as Hq.
  { destruct (query_cache self !! _hash question) as [cached|] eqn:Hc.
    - rewrite (query_hit _ k _ _ Hc) in H. inversion H; subst.
      by apply query_hit.
    - destruct (chunks self) as [|c cs] eqn:E.
      + rewrite (query_empty _ k _ Hc E) in H. inversion H; subst.
        by apply query_empty.
      + assert (chunks self <> []) as Hne by congruence.
        pose proof (query_miss question k self Hc Hne) as Hm. cbn zeta in Hm.
        destruct (encode (encode_calls self) question) as [q|].
        * destruct (collect_hits _ _ _ _) as [hits|e].
          -- rewrite Hm in H. inversion H; subst.
             apply query_hit. cbn. apply lookup_insert_eq.
          -- rewrite Hm in H. discriminate.
        * rewrite Hm in H. discriminate. }
  split; [exact Hq | by rewrite Hq].
Qed.

(** ** Reconciliation, step by step *)

Lemma bind_inv {A B} (m : M A) (k : A -> M B) self r self' :
  bind m k self = (r, self') ->
  (exists a self1, m self = (Ok a, self1) /\ k a self1 = (r, self')) \/
  (exists e, m self = (Raise e, self') /\ r = Raise e).
Proof.
  unfold bind. destruct (m self) as [[a|e] self1]; intros H.
  - left. eauto.
  - right. inversion H; subst. eauto.
Qed.

Lemma same_memory_refl self : same_memory self self.
Proof. by repeat split. Qed.

Lemma same_memory_trans s1 s2 s3 :
  same_memory s1 s2 -> same_memory s2 s3 -> same_memory s1 s3.
Proof.
  intros (?&?&?&?) (?&?&?&?). repeat split; congruence.
Qed.

Lemma grows_refl f d : grows f d d.
Proof. split; [done|]. exists []. by rewrite app_nil_r. Qed.

Lemma grows_trans f d1 d2 d3 : grows f d1 d2 -> grows f d2 d3 -> grows f d1 d3.
Proof.
  intros [Hm1 (n1 & Hd1 & Hf1)] [Hm2 (n2 & Hd2 & Hf2)]. split; [congruence|].
  exists (n1 ++ n2). rewrite Hd2, Hd1, app_assoc. split; [done|].
  by apply Forall_app.
Qed.

Lemma filter_none {A} (P : A -> Prop) `{!forall x, Decision (P x)} (l : list A) :
  Forall (fun x => ~ P x) l -> filter P l = [].
Proof.
  induction 1 as [|x l Hx Hl IH]; [done|].
  by rewrite filter_cons_False.
Qed.

Lemma grows_rows_except f d d' :
  grows f d d' -> rows_except f d' = rows_except f d.
Proof.
  intros [_ (new & Hd & Hf)]. unfold rows_except. rewrite Hd, filter_app.
  rewrite (filter_none _ new); [by rewrite app_nil_r|].
  eapply Forall_impl; [exact Hf|]. cbn. intros r Hr Hn. by apply Hn.
Qed.

Lemma grows_rows_of f g d d' :
  g <> f -> grows f d d' -> rows_of g d' = rows_of g d.
Proof.
  intros Hg [_ (new & Hd & Hf)]. unfold rows_of. rewrite Hd, filter_app.
  rewrite (filter_none _ new); [by rewrite app_nil_r|].
  eapply Forall_impl; [exact Hf|]. cbn. congruence.
Qed.

(** One chunk: nothing is committed, the ledger is not written, and at
    most one row of the file is appended. *)
Lemma index_chunk_spec f c self r self' :
  index_chunk f c self = (r, self') ->
  same_memory self self' /\
  committed (conn self') = committed (conn self) /\
  grows f (working (conn self)) (working (conn self')) /\
  (r = Ok tt \/ r = Raise OracleError).
Proof.
  unfold index_chunk. destruct (String.eqb (Py.strip c) "").
  - intros H. inversion H; subst.
    split; [apply same_memory_refl|]. split; [done|].
    split; [apply grows_refl | by left].
  - unfold bind, model_encode.
    destruct (encode (encode_calls self) (Py.strip c)) as [v|]; cbn;
      intros H; inversion H; subst; cbn.
    + split; [by repeat split|]. split; [done|]. split; [|by left].
      split; [done|].
      exists [mkRow (next_rowid (working (conn self))) f (Py.strip c) v
                    (_sha1 (Py.strip c))].
      split; [done|]. by repeat constructor.
    + split; [by repeat split|]. split; [done|].
      split; [apply grows_refl | by right].
Qed.

Lemma index_chunks_spec f cs self r self' :
  for_each cs (index_chunk f) self = (r, self') ->
  same_memory self self' /\
  committed (conn self') = committed (conn self) /\
  grows f (working (conn self)) (working (conn self')) /\
  (r = Ok tt \/ r = Raise OracleError).
Proof.
  revert self. induction cs as [|c cs IH]; intros self; cbn [for_each].
  - intros H. inversion H; subst.
    split; [apply same_memory_refl|]. split; [done|].
    split; [apply grows_refl | by left].
  - intros H. apply bind_inv in H as [(a & self1 & H1 & H2)|(e & H1 & ->)].
    + apply index_chunk_spec in H1 as (Hm1 & Hc1 & Hg1 & _).
      apply IH in H2 as (Hm2 & Hc2 & Hg2 & Hr).
      split; [apply (same_memory_trans _ _ _ Hm1 Hm2)|].
      split; [congruence|].
      split; [apply (grows_trans _ _ _ _ Hg1 Hg2) | exact Hr].
    + apply index_chunk_spec in H1 as (Hm1 & Hc1 & Hg1 & [Hr|Hr]);
        [discriminate|].
      split; [exact Hm1|]. split; [exact Hc1|]. split; [exact Hg1 | by right].
Qed.

Lemma chunk_text_default text : exists cs, _chunk_text text CHUNK_SIZE = Ok cs.
Proof. unfold _chunk_text, Py.range, CHUNK_SIZE. cbn. eauto. Qed.

(** [_index_file] on a file of the folder: rows of the file are appended;
    they are committed if, and only if, every chunk was embedded. *)
Lemma index_file_spec fs f c self r self' :
  fs !! f = Some c ->
  _index_file fs f self = (r, self') ->
  same_memory self self' /\
  grows f (working (conn self)) (working (conn self')) /\
  ((r = Ok tt /\ committed (conn self') = working (conn self')) \/
   (r = Raise OracleError /\ committed (conn self') = committed (conn self))).
Proof.
  intros Hf. unfold _index_file, read_file. rewrite Hf.
  destruct (chunk_text_default c) as [cs Hcs].
  intros H. unfold bind at 1 in H. cbn [ret] in H.
  unfold bind at 1 in H. rewrite Hcs in H. cbn [lift] in H.
  apply bind_inv in H as [(a & self1 & H1 & H2)|(e & H1 & ->)].
  - apply index_chunks_spec in H1 as (Hm & Hc & Hg & _).
    unfold commit in H2. inversion H2; subst. cbn.
    split; [exact Hm|]. split; [exact Hg|]. left. done.
  - apply index_chunks_spec in H1 as (Hm & Hc & Hg & [Hr|Hr]); [discriminate|].
    split; [exact Hm|]. split; [exact Hg|]. right. done.
Qed.

Lemma bind_execute {B} stmt (k : unit -> M B) self :
  bind (execute stmt) k self =
  k tt (set_conn (mkConnection (committed (conn self)) (stmt (working (conn self)))) self).
Proof. reflexivity. Qed.

Lemma bind_commit {B} (k : unit -> M B) self :
  bind commit k self =
  k tt (set_conn (mkConnection (working (conn self)) (working (conn self))) self).
Proof. reflexivity. Qed.

Lemma rows_of_except f g d :
  g <> f ->
  rows_of g d = filter (fun r => row_source r = g) (rows_except f d).
Proof.
  intros Hg. unfold rows_of, rows_except. rewrite list_filter_filter.
  apply list_filter_iff. intros r. split; [intros <-; done | tauto].
Qed.

Lemma rows_except_idem f (d : Database K) :
  filter (fun r => row_source r <> f) (rows_except f d) = rows_except f d.
Proof.
  unfold rows_except. rewrite list_filter_filter.
  apply list_filter_iff. tauto.
Qed.

Lemma sync_file_unchanged fs stored f sha self :
  stored !! f = Some sha ->
  sync_file fs stored (f, sha) self = (Ok tt, self).
Proof.
  intros H. unfold sync_file. rewrite H, String.eqb_refl. reflexivity.
Qed.

(** A new or changed file of the folder.  On success nothing is left
    uncommitted, the rows of the other files are as they were and the
    ledger has the new digest.  The only failure is the oracle's; then, for
    a new file, what is durable is what was durable, and for a changed file
    it is the store without the rows of the file, the ledger as it was. *)
Lemma sync_file_spec fs stored f sha c self r self' :
  fs !! f = Some c ->
  stored !! f <> Some sha ->
  sync_file fs stored (f, sha) self = (r, self') ->
  let w := working (conn self) in
  same_memory self self' /\
  match r with
  | Ok _ =>
      clean self' /\
      rows_except f (working (conn self')) = rows_except f w /\
      files_meta (working (conn self')) =
        match stored !! f with
        | None => <[f := sha]> (files_meta w)
        | Some _ => alter (fun _ => sha) f (files_meta w)
        end
  | Raise e =>
      e = OracleError /\
      match stored !! f with
      | None => committed (conn self') = committed (conn self)
      | Some _ =>
          files_meta (committed (conn self')) = files_meta w /\
          documents (committed (conn self')) = rows_except f w
      end
  end.
Proof.
  intros Hf Hne. unfold sync_file.
  destruct (stored !! f) as [old|] eqn:Hst.
  - destruct (String.eqb_spec old sha) as [->|Hold]; [congruence|].
    rewrite bind_execute, bind_commit. cbn [conn set_conn working committed].
    intros H. apply bind_inv in H as [(a & self1 & H1 & H2)|(e & H1 & ->)].
    + apply (index_file_spec _ _ _ _ _ _ Hf) in H1
        as (Hm & Hg & [[_ Hc]|[Hr _]]); [|discriminate].
      cbn beta in H2. rewrite bind_execute in H2. unfold commit in H2. cbn in H2.
      inversion H2; subst. cbn.
      split; [exact Hm|]. split; [done|]. split.
      * apply grows_rows_except in Hg. cbn in Hg.
        unfold rows_except in *. cbn in *. rewrite Hg.
        apply rows_except_idem.
      * destruct Hg as [Hg _]. cbn in Hg. by rewrite Hg.
    + apply (index_file_spec _ _ _ _ _ _ Hf) in H1
        as (Hm & Hg & [[Hr _]|[Hr Hc]]); [discriminate|].
      inversion Hr; subst. split; [exact Hm|]. cbn in Hc.
      rewrite Hc. cbn. done.
  - intros H. apply bind_inv in H as [(a & self1 & H1 & H2)|(e & H1 & ->)].
    + apply (index_file_spec _ _ _ _ _ _ Hf) in H1
        as (Hm & Hg & [[_ Hc]|[Hr _]]); [|discriminate].
      cbn beta in H2. rewrite bind_execute in H2. unfold commit in H2. cbn in H2.
      inversion H2; subst. cbn.
      split; [exact Hm|]. split; [done|]. split.
      * apply grows_rows_except in Hg. exact Hg.
      * destruct Hg as [Hg _]. by rewrite Hg.
    + apply (index_file_spec _ _ _ _ _ _ Hf) in H1
        as (Hm & Hg & [[Hr _]|[Hr Hc]]); [discriminate|].
      inversion Hr; subst. split; [exact Hm|]. done.
Qed.

Lemma rows_of_except_nil f (d : Database K) :
  filter (fun r => row_source r = f) (rows_except f d) = [].
Proof.
  apply filter_none, Forall_forall. intros r Hr.
  apply list_elem_of_filter in Hr as [Hr _]. exact Hr.
Qed.

Lemma same_file_of_except f g (d d' : Database K) :
  g <> f ->
  rows_except f d' = rows_except f d ->
  rows_of g d' = rows_of g d.
Proof.
  intros Hg He. by rewrite !(rows_of_except f g), He.
Qed.

(** The "add new or updated" loop, over items of the folder with distinct
    names, from a state whose ledger agrees with [stored] on them. *)
Lemma loop_add_spec fs stored items self r self' :
  NoDup (map fst items) ->
  Forall (fun p => is_Some (fs !! fst p)) items ->
  (forall p, p ∈ items ->
     files_meta (working (conn self)) !! fst p = stored !! fst p) ->
  for_each items (sync_file fs stored) self = (r, self') ->
  let w := working (conn self) in
  same_memory self self' /\
  match r with
  | Ok _ =>
      (clean self -> clean self') /\
      (forall g, g ∉ map fst items -> same_file g w (working (conn self'))) /\
      (forall f sha, (f, sha) ∈ items ->
         files_meta (working (conn self')) !! f = Some sha /\
         (stored !! f = Some sha ->
          rows_of f (working (conn self')) = rows_of f w))
  | Raise e =>
      e = OracleError /\
      (clean self ->
       exists f sha, (f, sha) ∈ items /\ stored !! f <> Some sha /\
         files_meta (committed (conn self')) !! f = stored !! f /\
         rows_of f (committed (conn self')) =
           match stored !! f with
           | None => rows_of f w
           | Some _ => []
           end /\
         (forall g, g <> f -> untouched stored items g ->
            same_file g w (committed (conn self'))))
  end.
Proof.
  revert self. induction items as [|[h sha_h] rest IH]; intros self Hnd Hfs Hag;
    cbn [for_each].
  - intros H. inversion H; subst. cbn zeta.
    split; [apply same_memory_refl|]. split; [done|]. split.
    + intros g _. by split.
    + intros f sha Hin. by apply elem_of_nil in Hin.
  - cbn in Hnd. apply NoDup_cons in Hnd as [Hh Hnd].
    apply Forall_cons in Hfs as [[c Hc] Hfs]. cbn in Hc.
    assert (files_meta (working (conn self)) !! h = stored !! h) as Hagh
      by (apply (Hag (h, sha_h)); left).
    assert (forall p, p ∈ rest -> fst p <> h) as Hrest.
    { intros p Hp Heq. apply Hh. rewrite <- Heq. by apply map_elem_intro. }
    destruct (decide (stored !! h = Some sha_h)) as [Hun|Hch].
    + (* the file is unchanged *)
      unfold bind. rewrite (sync_file_unchanged _ _ _ _ _ Hun).
      intros H. apply IH in H as [Hm Hr]; [|done|done|]; cycle 1.
      { intros p Hp. apply Hag. by right. }
      split; [exact Hm|]. destruct r as [[]|e].
      * destruct Hr as (Hcl & Hfr & Hit). split; [exact Hcl|]. split.
        -- intros g Hg. apply Hfr. intros Hin. apply Hg. by right.
        -- intros f sha Hin. apply elem_of_cons in Hin as [Heq|Hin].
           ++ inversion Heq; subst. destruct (Hfr h Hh) as [Hrows Hled].
              split; [congruence | done].
           ++ by apply Hit.
      * destruct Hr as [-> Hr]. split; [done|]. intros Hcl.
        destruct (Hr Hcl) as (f & sha & Hin & Hne & Hl & Hrows & Hframe).
        exists f, sha. split; [by right|]. do 3 (split; [done|]).
        intros g Hgf [Hg|(sha' & Hg & Hst)]; apply Hframe; try done.
        -- left. intros Hin'. apply Hg. by right.
        -- apply elem_of_cons in Hg as [Heq|Hg].
           ++ inversion Heq; subst. by left.
           ++ right. eauto.
    + (* the file is new or changed *)
      intros H. apply bind_inv in H as [(a & self1 & H1 & H2)|(e & H1 & ->)].
      * apply (sync_file_spec _ _ _ _ _ _ _ _ Hc Hch) in H1
          as (Hm1 & Hcl1 & Hex1 & Hled1).
        assert (forall g, g <> h ->
                  files_meta (working (conn self1)) !! g =
                  files_meta (working (conn self)) !! g) as Hled1'.
        { intros g Hg. rewrite Hled1. destruct (stored !! h).
          - by rewrite lookup_alter_ne.
          - by rewrite lookup_insert_ne. }
        assert (forall g, g <> h ->
                  rows_of g (working (conn self1)) =
                  rows_of g (working (conn self))) as Hrows1.
        { intros g Hg. by apply (same_file_of_except h). }
        apply IH in H2 as [Hm2 Hr]; [|done|done|]; cycle 1.
        { intros p Hp. rewrite Hled1' by by apply Hrest. apply Hag. by right. }
        split; [apply (same_memory_trans _ _ _ Hm1 Hm2)|].
        destruct r as [[]|e].
        -- destruct Hr as (Hcl & Hfr & Hit). split; [auto|]. split.
           ++ intros g Hg.
              assert (g <> h) as Hgh by (intros ->; apply Hg; left).
              destruct (Hfr g) as [Hr1 Hr2].
              { intros Hin. apply Hg. by right. }
              split; [rewrite Hr1; by apply Hrows1 | rewrite Hr2; by apply Hled1'].
           ++ intros f sha Hin. apply elem_of_cons in Hin as [Heq|Hin].
              ** inversion Heq; subst. destruct (Hfr h Hh) as [_ Hl].
                 split; [|done]. rewrite Hl, Hled1.
                 destruct (stored !! h) as [old|] eqn:Hst.
                 --- rewrite lookup_alter_eq, Hagh. done.
                 --- apply lookup_insert_eq.
              ** destruct (Hit f sha Hin) as [Hl Hrw]. split; [exact Hl|].
                 intros Hst. rewrite (Hrw Hst).
                 apply Hrows1; by apply (Hrest (f, sha)).
        -- destruct Hr as [-> Hr]. split; [done|]. intros _.
           destruct (Hr Hcl1) as (f & sha & Hin & Hne & Hl & Hrows & Hframe).
           exists f, sha. split; [by right|]. split; [done|]. split; [done|].
           split.
           ++ rewrite Hrows. destruct (stored !! f); [done|].
              apply Hrows1; by apply (Hrest (f, sha)).
           ++ intros g Hgf Hg.
              assert (g <> h /\ untouched stored rest g) as [Hgh Hg'].
              { destruct Hg as [Hg|(sha' & Hg & Hst)].
                - split; [intros ->; apply Hg; left|].
                  left. intros Hin'. apply Hg. by right.
                - apply elem_of_cons in Hg as [Heq|Hg].
                  + inversion Heq; subst. congruence.
                  + split; [by apply (Hrest (g, sha'))|]. right. eauto. }
              destruct (Hframe g Hgf Hg') as [Hr1 Hr2].
              split; [rewrite Hr1; by apply Hrows1 | rewrite Hr2; by apply Hled1'].
      * apply (sync_file_spec _ _ _ _ _ _ _ _ Hc Hch) in H1 as (Hm1 & -> & Hr).
        split; [exact Hm1|]. split; [done|]. intros Hcl.
        exists h, sha_h. split; [left|]. split; [done|].
        unfold clean in Hcl. destruct (stored !! h) as [old|] eqn:Hst.
        -- destruct Hr as [Hl Hd]. rewrite Hl. split; [congruence|]. split.
           ++ unfold rows_of. rewrite Hd. apply rows_of_except_nil.
           ++ intros g Hg _. split; [|by rewrite Hl].
              unfold rows_of at 1. rewrite Hd. symmetry. by apply rows_of_except.
        -- rewrite Hr, Hcl. done.
Qed.

Lemma remove_file_eq f self :
  remove_file f self =
  (Ok tt,
   set_conn (let d := delete_files_meta f (delete_documents f (working (conn self)))
             in mkConnection d d) self).
Proof. reflexivity. Qed.

(** The "delete removed" loop cannot fail. *)
Lemma loop_remove_spec l self :
  exists self',
    for_each l remove_file self = (Ok tt, self') /\
    same_memory self self' /\
    encode_calls self' = encode_calls self /\
    (clean self -> clean self') /\
    (forall g, g ∉ l -> same_file g (working (conn self)) (working (conn self'))) /\
    (forall g, g ∈ l ->
       rows_of g (working (conn self')) = [] /\
       files_meta (working (conn self')) !! g = None).
Proof.
  revert self. induction l as [|h l IH]; intros self; cbn [for_each].
  - exists self. split; [done|]. split; [apply same_memory_refl|].
    split; [done|]. split; [done|]. split.
    + intros g _. by split.
    + intros g Hg. by apply elem_of_nil in Hg.
  - unfold bind at 1. rewrite remove_file_eq.
    set (self1 := set_conn _ self).
    destruct (IH self1) as (self' & Hrun & Hm & Hcalls & Hcl & Hfr & Hin).
    exists self'. split; [exact Hrun|]. split; [|split; [|split; [|split]]].
    + destruct Hm as (?&?&?&?). by repeat split.
    + by rewrite Hcalls.
    + intros _. by apply Hcl.
    + intros g Hg. apply not_elem_of_cons in Hg as [Hgh Hg].
      destruct (Hfr g Hg) as [Hr Hl]. split.
      * rewrite Hr. subst self1. cbn. symmetry. by apply rows_of_except.
      * rewrite Hl. subst self1. cbn. by apply lookup_delete_ne.
    + intros g Hg. destruct (decide (g ∈ l)) as [Hgl|Hgl]; [by apply Hin|].
      apply elem_of_cons in Hg as [->|Hg]; [|done].
      destruct (Hfr h Hgl) as [Hr Hl]. split.
      * rewrite Hr. subst self1. cbn. apply rows_of_except_nil.
      * rewrite Hl. subst self1. cbn. apply lookup_delete_eq.
Qed.

(** ** The folder and its digests *)

Lemma read_meta_spec fs (l : list (string * string)) self :
  Forall (fun p => fs !! fst p = Some (snd p)) l ->
  read_meta fs (map fst l) self =
  (Ok (map (fun p => (fst p, _sha1 (snd p))) l), self).
Proof.
  induction 1 as [|[f c] l Hf Hl IH]; cbn; [reflexivity|].
  cbn in Hf. unfold read_file at 1. rewrite Hf.
  unfold bind at 1. cbn [ret]. unfold bind at 1. rewrite IH. reflexivity.
Qed.

Lemma filter_map_fst {A B} (P : A -> Prop) `{!forall x, Decision (P x)}
    (l : list (A * B)) :
  filter P (map fst l) = map fst (filter (fun p => P (fst p)) l).
Proof.
  induction l as [|p l IH]; [done|]. cbn [map].
  rewrite !filter_cons. destruct (decide (P (fst p))); cbn; by rewrite IH.
Qed.

Lemma current_items_keys fs :
  map fst (current_items fs) =
  filter (fun f => eligible f = true) (listdir fs).
Proof.
  unfold current_items, listdir. rewrite filter_map_fst, map_map. done.
Qed.

Lemma elem_of_current_items fs f sha :
  (f, sha) ∈ current_items fs <->
  exists c, fs !! f = Some c /\ eligible f = true /\ sha = _sha1 c.
Proof.
  unfold current_items. split.
  - intros H. apply map_elem_inv in H as ([g c] & Heq & Hin).
    cbn in Heq. inversion Heq; subst.
    apply list_elem_of_filter in Hin as [He Hin]. cbn in He.
    apply elem_of_map_to_list in Hin. eauto.
  - intros (c & Hc & He & ->).
    apply (map_elem_intro (fun p => (fst p, _sha1 (snd p))) _ (f, c)).
    apply list_elem_of_filter. split; [done|]. by apply elem_of_map_to_list.
Qed.

Lemma current_items_NoDup fs : NoDup (map fst (current_items fs)).
Proof.
  rewrite current_items_keys. apply NoDup_filter.
  apply NoDup_fst_map_to_list.
Qed.

Lemma lookup_digests fs f :
  digests fs !! f =
  if eligible f then _sha1 <$> fs !! f else None.
Proof.
  unfold digests. rewrite lookup_fmap, map_lookup_filter.
  destruct (fs !! f) as [c|]; cbn; [|by destruct (eligible f)].
  destruct (eligible f) eqn:E.
  - rewrite option_guard_True; done.
  - rewrite option_guard_False; [done|]. cbn. congruence.
Qed.

Lemma digests_items fs f sha :
  digests fs !! f = Some sha <-> (f, sha) ∈ current_items fs.
Proof.
  rewrite lookup_digests, elem_of_current_items. split.
  - destruct (eligible f); [|done]. destruct (fs !! f) as [c|]; [|done].
    cbn. intros [= <-]. eauto.
  - intros (c & -> & -> & ->). done.
Qed.

Lemma digests_keys fs f :
  f ∈ map fst (current_items fs) <-> is_Some (digests fs !! f).
Proof.
  split.
  - intros H. apply map_elem_inv in H as ([g sha] & <- & Hin).
    exists sha. by apply digests_items.
  - intros [sha H]. apply digests_items in H.
    by apply (map_elem_intro fst _ (f, sha)).
Qed.

(** [_sync_index_with_files] is the two loops and the reload. *)
Lemma sync_unfold fs self :
  _sync_index_with_files fs self =
  let stored := files_meta (working (conn self)) in
  bind (for_each (current_items fs) (sync_file fs stored))
       (fun _ =>
          bind (for_each
                  (elements (dom stored ∖ list_to_set (map fst (current_items fs))
                             : gset string))
                  remove_file)
               (fun _ => _load_from_db)) self.
Proof.
  unfold _sync_index_with_files. rewrite <- current_items_keys.
  unfold current_items at 1. rewrite map_map. cbn [fst].
  unfold bind at 1.
  rewrite (read_meta_spec fs
             (filter (fun p => eligible (fst p) = true) (map_to_list fs))).
  - reflexivity.
  - apply Forall_forall. intros [f c] H.
    apply list_elem_of_filter in H as [_ H]. by apply elem_of_map_to_list.
Qed.

Lemma current_items_in_folder fs :
  Forall (fun p => is_Some (fs !! fst p)) (current_items fs).
Proof.
  apply Forall_forall. intros [f sha] H.
  apply elem_of_current_items in H as (c & Hc & _). cbn. eauto.
Qed.

Lemma elem_of_removed (stored : gmap string string)
    (items : list (string * string)) g :
  g ∈ elements (dom stored ∖ list_to_set (map fst items) : gset string) <->
  is_Some (stored !! g) /\ g ∉ map fst items.
Proof.
  rewrite elem_of_elements, elem_of_difference, elem_of_dom, elem_of_list_to_set.
  done.
Qed.

(** A reconciliation that returns: the ledger is the digests of the
    folder, the index is reloaded from the store, the rows of every file
    whose ledger entry already was the folder's digest (or that is neither
    in the ledger nor in the folder) are as they were, and the files of
    the ledger that left the folder have no rows. *)
Lemma sync_ok fs self self' :
  _sync_index_with_files fs self = (Ok tt, self') ->
  let w := working (conn self) in
  (clean self -> clean self') /\
  mirrors_store self' /\
  query_cache self' = query_cache self /\
  files_meta (working (conn self')) = digests fs /\
  (forall g, files_meta w !! g = digests fs !! g ->
     rows_of g (working (conn self')) = rows_of g w) /\
  (forall g, is_Some (files_meta w !! g) -> digests fs !! g = None ->
     rows_of g (working (conn self')) = []).
Proof.
  rewrite sync_unfold. cbn zeta. set (stored := files_meta (working (conn self))).
  set (items := current_items fs).
  intros H. apply bind_inv in H as [(a & self1 & H1 & H2)|(e & _ & He)];
    [|discriminate]. destruct a.
  apply loop_add_spec in H1 as (Hm1 & Hcl1 & Hfr1 & Hit1);
    [|apply current_items_NoDup|apply current_items_in_folder|done].
  destruct (loop_remove_spec
              (elements (dom stored ∖ list_to_set (map fst items) : gset string))
              self1) as (self2 & Hrun & Hm2 & _ & Hcl2 & Hfr2 & Hin2).
  unfold bind in H2. rewrite Hrun in H2.
  pose proof (load_mirrors self2) as [_ Hmir].
  pose proof (load_frame self2) as (Hconn & _ & Hqc).
  destruct (_load_from_db self2) as [r3 self3] eqn:Hload. cbn in *.
  inversion H2; subst self3.
  assert (forall g, digests fs !! g = None -> g ∉ map fst items) as Hnokey.
  { intros g Hd. unfold items. rewrite digests_keys, Hd. by intros [? ?]. }
  split; [|split; [|split; [|split; [|split]]]].
  - unfold clean in *. rewrite Hconn. auto.
  - exact Hmir.
  - rewrite Hqc. destruct Hm1 as (_&_&_&?), Hm2 as (_&_&_&?). congruence.
  - rewrite Hconn. apply map_eq. intros g.
    destruct (digests fs !! g) as [sha|] eqn:Hd.
    + apply digests_items in Hd. destruct (Hit1 g sha Hd) as [Hl _].
      destruct (Hfr2 g) as [_ Hl2]; [|by rewrite Hl2].
      rewrite elem_of_removed. intros [_ Hn]. apply Hn.
      by apply (map_elem_intro fst _ (g, sha)).
    + pose proof (Hnokey g Hd) as Hg.
      destruct (stored !! g) as [old|] eqn:Hst.
      * apply Hin2. apply elem_of_removed. split; [by rewrite Hst | done].
      * destruct (Hfr2 g) as [_ Hl2].
        { rewrite elem_of_removed, Hst. by intros [[? ?] _]. }
        rewrite Hl2. destruct (Hfr1 g Hg) as [_ Hl1]. by rewrite Hl1.
  - intros g Hg. rewrite Hconn. fold stored in Hg.
    destruct (digests fs !! g) as [sha|] eqn:Hd.
    + apply digests_items in Hd. destruct (Hit1 g sha Hd) as [_ Hr].
      destruct (Hfr2 g) as [Hr2 _]; [|by rewrite Hr2, Hr].
      rewrite elem_of_removed. intros [_ Hn]. apply Hn.
      by apply (map_elem_intro fst _ (g, sha)).
    + pose proof (Hnokey g Hd) as Hgi.
      destruct (Hfr2 g) as [Hr2 _].
      { rewrite elem_of_removed, Hg. by intros [[? ?] _]. }
      rewrite Hr2. by destruct (Hfr1 g Hgi).
  - intros g Hg Hd. rewrite Hconn. apply Hin2, elem_of_removed.
    split; [exact Hg | by apply Hnokey].
Qed.

(** A reconciliation that raises, from a connection with no open
    transaction: the oracle failed on a file of the folder that is new or
    changed; no digest was upserted for it, and what is durable of its
    rows is what was there (new file) or nothing (changed file).  The
    files that needed no work are durably as they were. *)
Lemma sync_raise fs self e self' :
  clean self ->
  _sync_index_with_files fs self = (Raise e, self') ->
  let w := working (conn self) in
  e = OracleError /\
  same_memory self self' /\
  exists f c,
    fs !! f = Some c /\ eligible f = true /\
    files_meta w !! f <> Some (_sha1 c) /\
    files_meta (committed (conn self')) !! f = files_meta w !! f /\
    rows_of f (committed (conn self')) =
      match files_meta w !! f with
      | None => rows_of f w
      | Some _ => []
      end /\
    (forall g, g <> f -> files_meta w !! g = digests fs !! g ->
       same_file g w (committed (conn self'))).
Proof.
  intros Hcl. rewrite sync_unfold. cbn zeta.
  set (stored := files_meta (working (conn self))).
  set (items := current_items fs).
  intros H. apply bind_inv in H as [(a & self1 & H1 & H2)|(e' & H1 & He)].
  - destruct (loop_remove_spec
                (elements (dom stored ∖ list_to_set (map fst items) : gset string))
                self1) as (self2 & Hrun & _).
    unfold bind in H2. rewrite Hrun in H2. discriminate.
  - inversion He; subst e'.
    apply loop_add_spec in H1 as (Hm1 & -> & Hr);
      [|apply current_items_NoDup|apply current_items_in_folder|done].
    split; [done|]. split; [exact Hm1|].
    destruct (Hr Hcl) as (f & sha & Hin & Hne & Hl & Hrows & Hframe).
    apply elem_of_current_items in Hin as (c & Hc & Hel & ->).
    exists f, c. do 5 (split; [done|]).
    intros g Hgf Hg. apply Hframe; [done|]. fold stored in Hg.
    destruct (digests fs !! g) as [sha|] eqn:Hd.
    + right. exists sha. split; [by apply digests_items | done].
    + left. unfold items. rewrite digests_keys, Hd. by intros [? ?].
Qed.

(** ** Reconciling a folder that is already reconciled *)

Lemma loop_add_noop fs stored items self :
  (forall f sha, (f, sha) ∈ items -> stored !! f = Some sha) ->
  for_each items (sync_file fs stored) self = (Ok tt, self).
Proof.
  induction items as [|[h sha] rest IH]; intros Hun; cbn [for_each];
    [reflexivity|].
  unfold bind. rewrite sync_file_unchanged by (apply Hun; left).
  apply IH. intros f sha' Hin. apply Hun. by right.
Qed.

Lemma removed_nil fs :
  elements (dom (digests fs) ∖ list_to_set (map fst (current_items fs))
            : gset string) = [].
Proof.
  destruct (elements _) as [|g l] eqn:E; [reflexivity|]. exfalso.
  assert (g ∈ g :: l) as Hin by left. rewrite <- E in Hin.
  apply elem_of_removed in Hin as [Hs Hn]. apply Hn. by apply digests_keys.
Qed.

Lemma load_fixed self : mirrors_store self -> _load_from_db self = (Ok tt, self).
Proof.
  intros (Hc & Hs & Hr & Hd). unfold _load_from_db.
  destruct self as [cn calls cs ss [rows cols] qc]. cbn in *. subst.
  unfold set_index. cbn. rewrite length_map.
  destruct (documents (working cn)); reflexivity.
Qed.

(** On a folder whose digests the ledger already has, the pass is the
    reload alone. *)
Lemma sync_reconciled fs self :
  files_meta (working (conn self)) = digests fs ->
  _sync_index_with_files fs self = _load_from_db self.
Proof.
  intros Hl. rewrite sync_unfold. cbn zeta. rewrite Hl.
  unfold bind. rewrite loop_add_noop.
  - rewrite removed_nil. reflexivity.
  - intros f sha. by rewrite digests_items.
Qed.

Lemma load_index self :
  chunks (snd (_load_from_db self)) = map row_chunk (documents (working (conn self))) /\
  sources (snd (_load_from_db self)) = map row_source (documents (working (conn self))) /\
  embeddings (snd (_load_from_db self)) =
    mkMatrix (map row_embedding (documents (working (conn self))))
             get_sentence_embedding_dimension.
Proof.
  unfold _load_from_db. cbn. rewrite length_map.
  destruct (documents (working (conn self))); done.
Qed.

(** C4: reconciliation is idempotent.  A pass that returns has left the
    object such that a second pass over the same folder returns and changes
    nothing at all: both tables (what is committed and what the cursor
    sees), the in-memory index, the cache and the log of the calls to the
    embedding model are the same, so no row is added and nothing is
    embedded again.  The same holds of a pass run from any other object on
    the same connection state (the engine constructed anew on the store):
    it returns, embeds nothing, leaves both tables as they are and loads
    the same index. *)
Theorem reconcile_idempotent fs self self1 :
  _sync_index_with_files fs self = (Ok tt, self1) ->
  _sync_index_with_files fs self1 = (Ok tt, self1) /\
  (forall s, conn s = conn self1 ->
     exists s',
       _sync_index_with_files fs s = (Ok tt, s') /\
       conn s' = conn self1 /\
       encode_calls s' = encode_calls s /\
       chunks s' = chunks self1 /\ sources s' = sources self1 /\
       embeddings s' = embeddings self1).
Proof.
  intros H. apply sync_ok in H as (_ & Hm & _ & Hl & _). split.
  - rewrite sync_reconciled by done. by apply load_fixed.
  - intros s Hs. exists (snd (_load_from_db s)).
    rewrite sync_reconciled by by rewrite Hs.
    pose proof (load_mirrors s) as [Hok _].
    pose proof (load_frame s) as (Hconn & Hcalls & _).
    pose proof (load_index s) as (Hc & Hso & He).
    destruct Hm as (Hc1 & Hs1 & Hr1 & Hd1).
    split; [by destruct (_load_from_db s); cbn in *; subst|].
    split; [by rewrite Hconn|]. split; [done|].
    rewrite Hc, Hso, He, Hs, Hc1, Hs1.
    do 2 (split; [done|]).
    destruct (embeddings self1) as [rows cols]. cbn in *. by subst.
Qed.


(** C5: reconciliation has a per-file frame.  After a pass over a folder
    from a connection with no open transaction, let [f] be a tracked file,
    and let the pass be run again, from the same object or from any object
    on the same connection state.  If the content of [f] was modified,
    then whatever the outcome of the second pass the durable rows and the
    ledger entry of every other file are as they were, and if it returns
    the ledger has the digest of the new content of [f].  If [f] was
    deleted, the second pass returns; the rows of [f] and its ledger entry
    are gone and the rows and ledger entry of every other file are as they
    were. *)
Theorem reconcile_frame fs self0 self1 f c s :
  clean self0 ->
  _sync_index_with_files fs self0 = (Ok tt, self1) ->
  fs !! f = Some c ->
  eligible f = true ->
  conn s = conn self1 ->
  (forall c' r self2,
     _sync_index_with_files (<[f := c']> fs) s = (r, self2) ->
     (forall g, g <> f ->
        same_file g (committed (conn self1)) (committed (conn self2))) /\
     (r = Ok tt ->
      files_meta (committed (conn self2)) !! f = Some (_sha1 c'))) /\
  (exists self2,
     _sync_index_with_files (delete f fs) s = (Ok tt, self2) /\
     (forall g, g <> f ->
        same_file g (committed (conn self1)) (committed (conn self2))) /\
     rows_of f (committed (conn self2)) = [] /\
     files_meta (committed (conn self2)) !! f = None).
Proof.
  intros Hcl0 H1 Hf Hel Hs.
  apply sync_ok in H1 as (Hcl1 & _ & _ & Hl1 & _).
  specialize (Hcl1 Hcl0). unfold clean in Hcl1.
  assert (clean s) as Hcls by (unfold clean; by rewrite Hs).
  rewrite <- Hs in *. clear Hs self1. rewrite Hcl1. split.
  - (* the file is modified *)
    intros c' r self2 H2.
    assert (forall g, g <> f -> digests (<[f := c']> fs) !! g = digests fs !! g)
      as Hother.
    { intros g Hg. by rewrite !lookup_digests, lookup_insert_ne. }
    destruct r as [[]|e].
    + apply sync_ok in H2 as (Hcl2 & _ & _ & Hl2 & Hfr2 & _).
      specialize (Hcl2 Hcls). unfold clean in Hcl2. rewrite Hcl2. split.
      * intros g Hg. split.
        -- apply Hfr2. by rewrite Hl1, Hother.
        -- by rewrite Hl2, Hl1, Hother.
      * intros _. rewrite Hl2, lookup_digests, Hel, lookup_insert_eq. done.
    + apply sync_raise in H2
        as (_ & _ & f' & c'' & Hc'' & Hel' & Hne & _ & _ & Hframe); [|done].
      assert (f' = f) as ->.
      { destruct (decide (f' = f)) as [|Hff]; [done|]. exfalso. apply Hne.
        rewrite lookup_insert_ne in Hc'' by done.
        by rewrite Hl1, lookup_digests, Hel', Hc''. }
      split; [|discriminate].
      intros g Hg. apply Hframe; [done|]. by rewrite Hl1, Hother.
  - (* the file is deleted *)
    assert (forall g, g <> f -> digests (delete f fs) !! g = digests fs !! g)
      as Hother.
    { intros g Hg. by rewrite !lookup_digests, lookup_delete_ne. }
    destruct (_sync_index_with_files (delete f fs) s) as [[[]|e] self2] eqn:H2.
    + exists self2. split; [done|].
      apply sync_ok in H2 as (Hcl2 & _ & _ & Hl2 & Hfr2 & Hrm2).
      specialize (Hcl2 Hcls). unfold clean in Hcl2. rewrite Hcl2.
      assert (digests (delete f fs) !! f = None) as Hnone.
      { rewrite lookup_digests, lookup_delete_eq. by destruct (eligible f). }
      split; [|split].
      * intros g Hg. split.
        -- apply Hfr2. by rewrite Hl1, Hother.
        -- by rewrite Hl2, Hl1, Hother.
      * apply Hrm2; [|done]. rewrite Hl1, lookup_digests, Hel, Hf. by eexists.
      * by rewrite Hl2.
    + exfalso.
      apply sync_raise in H2 as (_ & _ & f' & c' & Hc' & Hel' & Hne & _); [|done].
      apply Hne. apply lookup_delete_Some in Hc' as [Hff Hc'].
      by rewrite Hl1, lookup_digests, Hel', Hc'.
Qed.

(** C9: the in-memory index is aligned after every load.  Before the first
    reconciliation the three structures are empty and the matrix has zero
    rows and the model's dimension as its column count; after
    [_load_from_db] the chunk texts, the source labels and the rows of the
    matrix are as many as the rows of the store, the column count is the
    model's dimension, and a store with zero rows gives the zero-row
    matrix; the object that [__init__] leaves is aligned. *)
Theorem index_aligned fs db self :
  (aligned (new_object db) /\
   embeddings (new_object db) = mkMatrix [] get_sentence_embedding_dimension) /\
  (let self' := snd (_load_from_db self) in
   aligned self' /\
   length (chunks self') = length (documents (working (conn self))) /\
   mat_cols (embeddings self') = get_sentence_embedding_dimension /\
   (documents (working (conn self)) = [] ->
    embeddings self' = mkMatrix [] get_sentence_embedding_dimension)) /\
  aligned (snd (__init__ fs db)).
Proof.
  split; [by repeat split|]. split.
  - cbn zeta. pose proof (load_mirrors self) as [_ Hm].
    pose proof (load_frame self) as (Hconn & _).
    split; [by apply mirrors_aligned|].
    destruct Hm as (Hc & _ & _ & Hd). rewrite Hc, Hconn, length_map.
    split; [done|]. split; [exact Hd|].
    intros Hnil. unfold _load_from_db. cbn. by rewrite Hnil.
  - unfold __init__.
    destruct (_sync_index_with_files fs (new_object db)) as [[[]|e] self'] eqn:H.
    + apply sync_ok in H as (_ & Hm & _). by apply mirrors_aligned.
    + apply sync_raise in H as (_ & (Hc & Hs & He & _) & _); [|done].
      cbn. unfold aligned. by rewrite Hc, Hs, He.
Qed.

End EngineFacts.

(** ** The two kernels *)

#[global] Instance real_order : TotalOrder RealKernel.kernel.
Proof.
  split; cbn; unfold RealKernel.leb; intros x y.
  - destruct (Rle_dec x y), (Rle_dec y x); auto. lra.
  - intros z. destruct (Rle_dec x y), (Rle_dec y z), (Rle_dec x z);
      auto; try discriminate. lra.
Qed.

Lemma real_dot_zero n b : RealKernel.dot (repeat 0%R n) b = 0%R.
Proof.
  unfold RealKernel.dot. revert b.
  induction n as [|n IH]; intros [|y b]; cbn; try reflexivity.
  rewrite IH. lra.
Qed.

Lemma real_norm_nonneg a : (0 <= RealKernel.norm a)%R.
Proof. apply sqrt_pos. Qed.

(** The epsilon guards the norm of the query: the denominator of a row
    whose norm is not zero is not zero, whatever the query. *)
Lemma query_norm_guarded (e q : list R) cols :
  RealKernel.norm e <> 0%R ->
  Forall (fun x => x <> 0%R)
         (cosine_norms (@mkMatrix RealKernel.kernel [e] cols) q).
Proof.
  intros He. cbn. constructor; [|constructor].
  pose proof (real_norm_nonneg q). apply Rmult_integral_contrapositive.
  split; [done|]. assert (0 < / 10 ^ 12)%R by (apply Rinv_0_lt_compat; lra). lra.
Qed.

(** C6: the epsilon does not guard the norm of a stored vector.  In exact
    arithmetic the denominator [norm(e) * (norm(q) + 1e-12)] of a stored
    vector [e] that is exactly zero is zero, for every query vector. *)
Theorem zero_row_denominator (n cols : nat) (q : list R) :
  cosine_norms (@mkMatrix RealKernel.kernel [repeat 0%R n] cols) q = [0%R].
Proof.
  cbn. unfold RealKernel.norm at 1. rewrite real_dot_zero, sqrt_0.
  by rewrite Rmult_0_l.
Qed.

(** On machine floats the score of such a row is NaN. *)
Lemma zero_row_score_nan :
  map PrimFloat.is_nan
      (cosine_sims (@mkMatrix FloatKernel.kernel
                                [[0%float; 0%float]; [0%float; 1%float]] 2)
                   [0%float; 1%float]) = [true; false].
Proof. vm_compute. reflexivity. Qed.

(** ** The theorems at concrete inputs *)

Lemma chunk_text_spec_witness :
  1 <= 2 /\
  exists chunks,
    _chunk_text " a bb  c dd e " 2 = Ok chunks /\
    Z.of_nat (length chunks) =
      (Z.of_nat (length (Py.split " a bb  c dd e ")) + 2 - 1) / 2 /\
    (forall i c, chunks !! i = Some c -> (Datatypes.S i < length chunks)%nat ->
       Z.of_nat (length (Py.split c)) = 2) /\
    concat (map Py.split chunks) = Py.split " a bb  c dd e " /\
    (forallb Py.is_space (list_ascii_of_string " a bb  c dd e ") = true ->
     chunks = []).
Proof.
  split; [lia|]. apply (chunk_text_spec " a bb  c dd e " 2). lia.
Defined.

Lemma reconcile_idempotent_witness :
  _sync_index_with_files Demo.folder (new_object Demo.empty_db) =
    (Ok tt, Demo.engine) /\
  _sync_index_with_files Demo.folder Demo.engine = (Ok tt, Demo.engine).
Proof.
  assert (_sync_index_with_files Demo.folder (new_object Demo.empty_db) =
          (Ok tt, Demo.engine)) as H by (vm_compute; reflexivity).
  split; [exact H|].
  exact (proj1 (reconcile_idempotent Demo.folder (new_object Demo.empty_db)
                  Demo.engine H)).
Defined.



Lemma reconcile_frame_witness :
  clean (new_object Demo.empty_db) /\
  _sync_index_with_files Demo.folder (new_object Demo.empty_db) =
    (Ok tt, Demo.engine) /\
  Demo.folder !! "a.txt"%string = Some "alpha beta"%string /\
  eligible "a.txt" = true /\
  conn (new_object Demo.db1) = conn Demo.engine /\
  exists self2,
    _sync_index_with_files (delete "a.txt"%string Demo.folder)
                           (new_object Demo.db1) = (Ok tt, self2) /\
    (forall g, g <> "a.txt"%string ->
       same_file g (committed (conn Demo.engine)) (committed (conn self2))) /\
    rows_of "a.txt" (committed (conn self2)) = [] /\
    files_meta (committed (conn self2)) !! "a.txt"%string = None.
Proof.
  assert (clean (new_object Demo.empty_db)) as Hc by reflexivity.
  assert (_sync_index_with_files Demo.folder (new_object Demo.empty_db) =
          (Ok tt, Demo.engine)) as H by (vm_compute; reflexivity).
  assert (Demo.folder !! "a.txt"%string = Some "alpha beta"%string) as Hf
    by (vm_compute; reflexivity).
  assert (eligible "a.txt" = true) as He by reflexivity.
  assert (conn (new_object Demo.db1) = conn Demo.engine) as Hs
    by (vm_compute; reflexivity).
  do 5 (split; [assumption|]).
  exact (proj2 (reconcile_frame _ _ _ _ _ _ Hc H Hf He Hs)).
Defined.




Lemma query_cache_memoizes_witness :
  query "q" 1 Demo.engine = (Ok Demo.hits1, Demo.engine1) /\
  query "q" 5 Demo.engine1 = (Ok Demo.hits1, Demo.engine1) /\
  encode_calls (snd (query "q" 5 Demo.engine1)) = encode_calls Demo.engine1.
Proof.
  assert (query "q" 1 Demo.engine = (Ok Demo.hits1, Demo.engine1)) as H
    by (vm_compute; reflexivity).
  split; [exact H|].
  exact (query_cache_memoizes "q" 1 5 Demo.engine Demo.hits1 Demo.engine1 H).
Defined.

(** * Further properties *)

(** ** The chunks are trimmed *)

Lemma lstrip_head_nonspace l : head_nonspace l -> Py.lstrip_chars l = l.
Proof. destruct l as [|c l]; cbn; [done|]. by intros ->. Qed.

Lemma head_nonspace_app l k : head_nonspace l -> head_nonspace (l ++ k).
Proof. by destruct l. Qed.

Lemma word_head_nonspace w : is_word w -> head_nonspace w /\ head_nonspace (rev w).
Proof.
  intros [Hne Hw]. split.
  - destruct w as [|c w]; [done|]. cbn. by apply Forall_cons in Hw as [? _].
  - assert (rev w <> []) as Hr.
    { intros Hr. apply Hne. by rewrite <- (rev_involutive w), Hr. }
    assert (Forall (fun c => Py.is_space c = false) (rev w)) as Hw'.
    { apply Forall_forall. intros c Hc. rewrite Forall_forall in Hw.
      apply Hw. apply list_elem_of_In, in_rev. by apply list_elem_of_In. }
    destruct (rev w) as [|c l]; [done|]. cbn. by apply Forall_cons in Hw' as [? _].
Qed.

Lemma join_chars_head_nonspace ws :
  Forall is_word ws -> ws <> [] ->
  head_nonspace (join_chars ws) /\ head_nonspace (rev (join_chars ws)).
Proof.
  induction 1 as [|w ws Hw Hws IH]; [done|]. intros _.
  destruct (word_head_nonspace w Hw) as [Hh Hr].
  destruct ws as [|w2 ws]; [done|].
  change (join_chars (w :: w2 :: ws)) with (w ++ " "%char :: join_chars (w2 :: ws)).
  split; [by apply head_nonspace_app|].
  rewrite rev_app_distr. cbn [rev]. rewrite <- app_assoc.
  apply head_nonspace_app. by apply IH.
Qed.

Lemma strip_trimmed s :
  head_nonspace (list_ascii_of_string s) ->
  head_nonspace (rev (list_ascii_of_string s)) ->
  trimmed s.
Proof.
  intros Hh Hr. split.
  - unfold Py.strip.
    rewrite (lstrip_head_nonspace _ Hh), (lstrip_head_nonspace _ Hr).
    by rewrite rev_involutive, string_of_list_ascii_of_string.
  - intros ->. cbn in Hh. done.
Qed.

Lemma chunk_text_trimmed text W cs :
  1 <= W ->
  _chunk_text text W = Ok cs ->
  Forall trimmed cs.
Proof.
  intros HW H. rewrite chunk_text_windows in H by done. inversion H; subst cs.
  clear H. set (raw := Py.split_from [] (list_ascii_of_string text)).
  change (Py.split text) with (map string_of_list_ascii raw).
  assert (Forall is_word raw) as Hraw by (apply split_from_words; constructor).
  rewrite length_map, windows_map, map_map.
  set (N := Z.of_nat (length raw)).
  pose proof (ceil_div_bounds N W ltac:(lia) HW) as Hceil. cbn zeta in Hceil.
  apply Forall_forall. intros c Hc.
  apply map_elem_inv in Hc as (x & <- & Hx).
  apply list_elem_of_lookup in Hx as [j Hj].
  apply windows_lookup in Hj as [Hlt ->].
  set (x := firstn (Z.to_nat W) (skipn (j * Z.to_nat W) raw)).
  assert (Forall is_word x) as Hwx by by apply Forall_take, Forall_drop.
  assert (x <> []) as Hne.
  { intros Hnil. apply (f_equal length) in Hnil. subst x.
    rewrite length_firstn, length_skipn in Hnil. cbn in Hnil.
    destruct Hceil as [(HL & _ & Hlast)|[HN HL]]; [|lia].
    assert (Z.of_nat j <= (N + W - 1) / W - 1) by lia. subst N. nia. }
  destruct (join_chars_head_nonspace x Hwx Hne) as [Hh Hr].
  apply strip_trimmed; by rewrite join_strings.
Qed.

(** X1: for a window of at least one word, every chunk of the chunker is
    a non-empty string without leading or trailing whitespace: [strip]
    leaves it as it is, so that the skip of blank chunks in [_index_file]
    never fires and every chunk is embedded and stored as it is. *)
Theorem chunks_are_trimmed text W cs :
  1 <= W ->
  _chunk_text text W = Ok cs ->
  Forall (fun c => Py.strip c = c /\ c <> ""%string) cs.
Proof. apply chunk_text_trimmed. Qed.

(** X14: a window that is not positive.  With a window of zero words the
    chunker raises [ValueError] (the step of [range]); with a negative
    window it raises nothing and returns no chunk at all, whatever the
    text. *)
Theorem chunk_text_nonpositive_window text W :
  W <= 0 ->
  _chunk_text text W = if W =? 0 then Raise ValueError else Ok [].
Proof.
  intros HW. unfold _chunk_text, Py.range, Py.range_len.
  destruct (Z.eqb_spec W 0) as [->|Hne]; [reflexivity|].
  destruct (Z.ltb_spec 0 W); [lia|].
  set (N := Z.of_nat (length (Py.split text))).
  replace (Z.max 0 ((0 - N - W - 1) / - W)) with 0; [reflexivity|].
  assert ((0 - N - W - 1) / - W <= 0); [|lia].
  destruct (Z.le_gt_cases 0 (0 - N - W - 1)).
  - rewrite Z.div_small; lia.
  - apply Z.lt_le_incl, Z.div_lt_upper_bound; lia.
Qed.

Section IndexingFacts.

Context {K : NumPy} {S : Services K}.

Lemma chunks_of_trimmed c : Forall trimmed (chunks_of c).
Proof.
  unfold chunks_of. destruct (_chunk_text c CHUNK_SIZE) as [cs|e] eqn:E;
    [|constructor].
  apply (chunk_text_trimmed c CHUNK_SIZE); [done | exact E].
Qed.

Lemma rows_of_app f (d : Database K) docs new :
  documents d = docs ++ new ->
  Forall (fun r => row_source r = f) new ->
  rows_of f d = filter (fun r => row_source r = f) docs ++ new.
Proof.
  intros Hd Hf. unfold rows_of. rewrite Hd, filter_app. f_equal. clear Hd.
  induction Hf as [|r new Hr Hf IH]; [done|].
  by rewrite filter_cons_True, IH.
Qed.

Lemma row_holds_source f new cs :
  Forall2 (row_holds f) new cs -> Forall (fun r => row_source r = f) new.
Proof. induction 1 as [|r c new cs (Hs & _) _ IH]; by constructor. Qed.

(** One trimmed chunk, embedded: one call, one row. *)
Lemma index_chunk_ok f c self self' :
  trimmed c ->
  index_chunk f c self = (Ok tt, self') ->
  encode_calls self' = encode_calls self ++ [c] /\
  exists r, row_holds f r c /\
    documents (working (conn self')) = documents (working (conn self)) ++ [r].
Proof.
  intros [Hs Hne]. unfold index_chunk. rewrite Hs.
  destruct (String.eqb_spec c ""); [done|].
  unfold bind, model_encode.
  destruct (encode (encode_calls self) c) as [v|] eqn:E; cbn; [|discriminate].
  intros H. inversion H; subst. cbn. split; [done|].
  eexists. split; [|reflexivity]. repeat split; cbn; eauto.
Qed.

Lemma index_chunks_ok f cs self self' :
  Forall trimmed cs ->
  for_each cs (index_chunk f) self = (Ok tt, self') ->
  encode_calls self' = encode_calls self ++ cs /\
  exists new, Forall2 (row_holds f) new cs /\
    documents (working (conn self')) = documents (working (conn self)) ++ new.
Proof.
  intros Hcs. revert self. induction Hcs as [|c cs Hc Hcs IH]; intros self;
    cbn [for_each].
  - intros H. inversion H; subst. rewrite !app_nil_r. split; [done|].
    exists []. by split; [constructor | rewrite app_nil_r].
  - intros H. apply bind_inv in H as [(a & self1 & H1 & H2)|(e & _ & He)];
      [|discriminate]. destruct a.
    apply (index_chunk_ok _ _ _ _ Hc) in H1 as (Hcalls1 & r & Hr & Hd1).
    apply IH in H2 as (Hcalls2 & new & Hnew & Hd2).
    split; [by rewrite Hcalls2, Hcalls1, <- app_assoc|].
    exists (r :: new). split; [by constructor|].
    by rewrite Hd2, Hd1, <- app_assoc.
Qed.

(** [_index_file] that returns: one call and one row for every chunk of
    the file, in order, and the rows are committed. *)
Lemma index_file_ok fs f c self self' :
  fs !! f = Some c ->
  _index_file fs f self = (Ok tt, self') ->
  encode_calls self' = encode_calls self ++ chunks_of c /\
  exists new, Forall2 (row_holds f) new (chunks_of c) /\
    documents (working (conn self')) = documents (working (conn self)) ++ new.
Proof.
  intros Hf. unfold _index_file, read_file. rewrite Hf.
  pose proof (chunks_of_trimmed c) as Htr. unfold chunks_of in *.
  destruct (chunk_text_default c) as [cs Hcs]. rewrite Hcs in *.
  intros H. unfold bind at 1 in H. cbn [ret] in H.
  unfold bind at 1 in H. rewrite Hcs in H. cbn [lift] in H.
  apply bind_inv in H as [(a & self1 & H1 & H2)|(e & _ & He)]; [|discriminate].
  destruct a. apply (index_chunks_ok _ _ _ _ Htr) in H1 as (Hcalls & new & Hnew & Hd).
  unfold commit in H2. inversion H2; subst. cbn. eauto.
Qed.

(** A new or changed file, reconciled: the oracle is asked for its chunks
    and for nothing else, and the rows of the file are its previous rows
    (none for a changed file, whose rows are deleted first) followed by one
    ChunkRecord for every chunk. *)
Lemma sync_file_ok fs stored f sha c self self' :
  fs !! f = Some c ->
  stored !! f <> Some sha ->
  sync_file fs stored (f, sha) self = (Ok tt, self') ->
  encode_calls self' = encode_calls self ++ chunks_of c /\
  exists new, Forall2 (row_holds f) new (chunks_of c) /\
    rows_of f (working (conn self')) =
      match stored !! f with
      | None => rows_of f (working (conn self))
      | Some _ => []
      end ++ new.
Proof.
  intros Hf Hne. unfold sync_file.
  destruct (stored !! f) as [old|] eqn:Hst.
  - destruct (String.eqb_spec old sha) as [->|Hold]; [congruence|].
    rewrite bind_execute, bind_commit. cbn [conn set_conn working committed].
    intros H. apply bind_inv in H as [(a & self1 & H1 & H2)|(e & _ & He)];
      [|discriminate]. destruct a.
    apply (index_file_ok _ _ _ _ _ Hf) in H1 as (Hcalls & new & Hnew & Hd).
    cbn beta in H2. rewrite bind_execute in H2. unfold commit in H2.
    inversion H2; subst self'. split; [exact Hcalls|].
    exists new. split; [done|]. cbn in Hd.
    erewrite rows_of_app; [|cbn; exact Hd|by eapply row_holds_source].
    f_equal. apply (rows_of_except_nil f (working (conn self))).
  - intros H. apply bind_inv in H as [(a & self1 & H1 & H2)|(e & _ & He)];
      [|discriminate]. destruct a.
    apply (index_file_ok _ _ _ _ _ Hf) in H1 as (Hcalls & new & Hnew & Hd).
    cbn beta in H2. rewrite bind_execute in H2. unfold commit in H2.
    inversion H2; subst self'. split; [exact Hcalls|].
    exists new. split; [done|].
    erewrite rows_of_app; [|cbn; exact Hd|by eapply row_holds_source]. done.
Qed.

Lemma work_of_unchanged fs stored f sha :
  stored !! f = Some sha -> work_of fs stored (f, sha) = [].
Proof. intros H. unfold work_of. cbn. by rewrite H, String.eqb_refl. Qed.

Lemma work_of_changed fs stored f sha c :
  fs !! f = Some c -> stored !! f <> Some sha ->
  work_of fs stored (f, sha) = chunks_of c.
Proof.
  intros Hf Hne. unfold work_of. cbn. rewrite Hf.
  destruct (stored !! f) as [old|]; [|done].
  destruct (String.eqb_spec old sha); [congruence | done].
Qed.

(** The "add new or updated" loop that returns: the calls to the oracle
    are the chunks of the files that needed work, in the order of the
    items, and the rows of each such file are rebuilt from its chunks. *)
Lemma loop_add_trace fs stored items self self' :
  NoDup (map fst items) ->
  Forall (fun p => is_Some (fs !! fst p)) items ->
  (forall p, p ∈ items ->
     files_meta (working (conn self)) !! fst p = stored !! fst p) ->
  for_each items (sync_file fs stored) self = (Ok tt, self') ->
  encode_calls self' =
    encode_calls self ++ concat (map (work_of fs stored) items) /\
  (forall f sha, (f, sha) ∈ items -> stored !! f <> Some sha ->
     exists c new,
       fs !! f = Some c /\ Forall2 (row_holds f) new (chunks_of c) /\
       rows_of f (working (conn self')) =
         match stored !! f with
         | None => rows_of f (working (conn self))
         | Some _ => []
         end ++ new).
Proof.
  revert self. induction items as [|[h sha_h] rest IH]; intros self Hnd Hfs Hag;
    cbn [for_each].
  - intros H. inversion H; subst. cbn. rewrite app_nil_r. split; [done|].
    intros f sha Hin. by apply elem_of_nil in Hin.
  - cbn in Hnd. apply NoDup_cons in Hnd as [Hh Hnd].
    apply Forall_cons in Hfs as [[c Hc] Hfs]. cbn in Hc.
    assert (forall p, p ∈ rest -> fst p <> h) as Hrest.
    { intros p Hp Heq. apply Hh. rewrite <- Heq. by apply map_elem_intro. }
    cbn [map concat].
    destruct (decide (stored !! h = Some sha_h)) as [Hun|Hch].
    + unfold bind. rewrite (sync_file_unchanged _ _ _ _ _ Hun).
      rewrite (work_of_unchanged _ _ _ _ Hun). cbn [app].
      intros H. apply IH in H as [Hcalls Hrows]; [|done|done|]; cycle 1.
      { intros p Hp. apply Hag. by right. }
      split; [done|]. intros f sha Hin Hne.
      apply elem_of_cons in Hin as [Heq|Hin]; [|by apply (Hrows f sha)].
      inversion Heq; subst. congruence.
    + rewrite (work_of_changed _ _ _ _ _ Hc Hch).
      intros H. apply bind_inv in H as [(a & self1 & H1 & H2)|(e & _ & He)];
        [|discriminate]. destruct a.
      pose proof (sync_file_spec _ _ _ _ _ _ _ _ Hc Hch H1)
        as (_ & _ & Hex1 & Hled1).
      apply (sync_file_ok _ _ _ _ _ _ _ Hc Hch) in H1 as (Hcalls1 & new & Hnew & Hr1).
      assert (forall p, p ∈ rest ->
                files_meta (working (conn self1)) !! fst p = stored !! fst p) as Hag1.
      { intros p Hp. rewrite Hled1. specialize (Hrest p Hp).
        destruct (stored !! h).
        - rewrite lookup_alter_ne by done. apply Hag. by right.
        - rewrite lookup_insert_ne by done. apply Hag. by right. }
      pose proof (loop_add_spec _ _ _ _ _ _ Hnd Hfs Hag1 H2) as (_ & _ & Hfr & _).
      apply IH in H2 as [Hcalls2 Hrows2]; [|done|done|done].
      split; [by rewrite Hcalls2, Hcalls1, <- app_assoc|].
      intros f sha Hin Hne. apply elem_of_cons in Hin as [Heq|Hin].
      * inversion Heq; subst. exists c, new. split; [done|]. split; [done|].
        destruct (Hfr h Hh) as [-> _]. exact Hr1.
      * destruct (Hrows2 f sha Hin Hne) as (c' & new' & Hc' & Hnew' & Hr').
        exists c', new'. split; [done|]. split; [done|]. rewrite Hr'.
        destruct (stored !! f); [done|]. f_equal.
        apply (same_file_of_except h); [by apply (Hrest (f, sha)) | done].
Qed.

(** The texts embedded by a pass that returns. *)
Lemma sync_calls fs self self' :
  _sync_index_with_files fs self = (Ok tt, self') ->
  encode_calls self' =
    encode_calls self ++
    concat (map (work_of fs (files_meta (working (conn self)))) (current_items fs)).
Proof.
  rewrite sync_unfold. cbn zeta. set (stored := files_meta (working (conn self))).
  intros H. apply bind_inv in H as [(a & self1 & H1 & H2)|(e & _ & He)];
    [|discriminate]. destruct a.
  apply loop_add_trace in H1 as [Hcalls _];
    [|apply current_items_NoDup|apply current_items_in_folder|done].
  destruct (loop_remove_spec
              (elements (dom stored ∖ list_to_set (map fst (current_items fs))
                         : gset string))
              self1) as (self2 & Hrun & _ & Hc2 & _).
  unfold bind in H2. rewrite Hrun in H2.
  pose proof (load_frame self2) as (_ & Hc3 & _).
  destruct (_load_from_db self2) as [r3 self3]. cbn in Hc3.
  inversion H2; subst. by rewrite Hc3, Hc2, Hcalls.
Qed.

(** X2: the oracle is called for what changed and for nothing else.  In a
    pass that returns, the texts sent to the embedding model are exactly
    the chunks of the files that are new to the ledger or whose digest
    differs from the ledger's, file by file in the order of the listing and
    chunk by chunk; files whose digest the ledger has, and files that left
    the folder, cost no call. *)
Theorem reconcile_embeds_changed_only fs self self' :
  _sync_index_with_files fs self = (Ok tt, self') ->
  encode_calls self' =
    encode_calls self ++
    concat (map (work_of fs (files_meta (working (conn self)))) (current_items fs)).
Proof. apply sync_calls. Qed.

(** The rows of a file that a returning pass had to index. *)
Lemma sync_rows fs self self' f c :
  _sync_index_with_files fs self = (Ok tt, self') ->
  fs !! f = Some c -> eligible f = true ->
  files_meta (working (conn self)) !! f <> Some (_sha1 c) ->
  exists new,
    Forall2 (row_holds f) new (chunks_of c) /\
    rows_of f (working (conn self')) =
      match files_meta (working (conn self)) !! f with
      | None => rows_of f (working (conn self))
      | Some _ => []
      end ++ new.
Proof.
  rewrite sync_unfold. cbn zeta. set (stored := files_meta (working (conn self))).
  intros H Hf Hel Hne.
  apply bind_inv in H as [(a & self1 & H1 & H2)|(e & _ & He)];
    [|discriminate]. destruct a.
  apply loop_add_trace in H1 as [_ Hrows];
    [|apply current_items_NoDup|apply current_items_in_folder|done].
  destruct (Hrows f (_sha1 c)) as (c' & new & Hc' & Hnew & Hr); [|done|].
  { apply elem_of_current_items. eauto. }
  assert (c' = c) as -> by congruence.
  destruct (loop_remove_spec
              (elements (dom stored ∖ list_to_set (map fst (current_items fs))
                         : gset string))
              self1) as (self2 & Hrun & _ & _ & _ & Hfr2 & _).
  unfold bind in H2. rewrite Hrun in H2.
  pose proof (load_frame self2) as (Hconn & _).
  destruct (_load_from_db self2) as [r3 self3]. cbn in Hconn.
  inversion H2; subst. exists new. split; [done|]. rewrite Hconn.
  destruct (Hfr2 f) as [-> _]; [|exact Hr].
  rewrite elem_of_removed. intros [_ Hn]. apply Hn.
  apply (map_elem_intro fst _ (f, _sha1 c)). apply elem_of_current_items. eauto.
Qed.

(** A returning pass keeps the store in agreement with its ledger. *)
Lemma sync_reflects fs self self' :
  reflects (working (conn self)) ->
  _sync_index_with_files fs self = (Ok tt, self') ->
  reflects (working (conn self')).
Proof.
  intros Hrf H f.
  pose proof (sync_ok _ _ _ H) as (_ & _ & _ & Hl & Hfr & Hrm).
  rewrite Hl. specialize (Hrf f).
  destruct (digests fs !! f) as [sha|] eqn:Hd.
  - pose proof Hd as Hd'. rewrite lookup_digests in Hd'.
    destruct (eligible f) eqn:Hel; [|done].
    destruct (fs !! f) as [c|] eqn:Hf; [|done]. cbn in Hd'. inversion Hd'; subst sha.
    destruct (decide (files_meta (working (conn self)) !! f = Some (_sha1 c)))
      as [Hun|Hch].
    + rewrite Hfr by by rewrite Hun, Hd. by rewrite Hun in Hrf.
    + destruct (sync_rows _ _ _ _ _ H Hf Hel Hch) as (new & Hnew & Hr).
      exists c. split; [done|]. rewrite Hr.
      destruct (files_meta (working (conn self)) !! f); [done|].
      by rewrite Hrf.
  - destruct (files_meta (working (conn self)) !! f) as [old|] eqn:Hst.
    + apply Hrm; [by rewrite Hst | done].
    + rewrite Hfr by by rewrite Hst, Hd. done.
Qed.

(** X3: the store agrees with its ledger, pass after pass.  If the rows
    of every tracked file are the ChunkRecords (source, chunk text, digest
    of the text, an embedding the model gave for the text) of the chunks of
    a content with the recorded digest, and untracked files have no rows,
    then the same holds after a pass that returns; and then, for every
    eligible file of the folder, the rows are the ChunkRecords of the
    chunks of a content with the digest of the file's content, and no other
    file has rows. *)
Theorem reconcile_keeps_store_faithful fs self self' :
  reflects (working (conn self)) ->
  _sync_index_with_files fs self = (Ok tt, self') ->
  reflects (working (conn self')) /\
  (forall f content, fs !! f = Some content -> eligible f = true ->
     exists c, _sha1 content = _sha1 c /\
       Forall2 (row_holds f) (rows_of f (working (conn self'))) (chunks_of c)) /\
  (forall f, (fs !! f = None \/ eligible f = false) ->
     rows_of f (working (conn self')) = []).
Proof.
  intros Hrf H. pose proof (sync_reflects _ _ _ Hrf H) as Hrf'.
  pose proof (sync_ok _ _ _ H) as (_ & _ & _ & Hl & _).
  split; [exact Hrf'|]. split.
  - intros f content Hf Hel. specialize (Hrf' f).
    rewrite Hl, lookup_digests, Hel, Hf in Hrf'. exact Hrf'.
  - intros f Hno. specialize (Hrf' f).
    rewrite Hl, lookup_digests in Hrf'.
    destruct Hno as [Hno|Hno]; rewrite Hno in Hrf'; [|done].
    by destruct (eligible f).
Qed.

End IndexingFacts.

Section QueryFacts.

Context {K : NumPy} {S : Services K}.

(** ** The results are the best entries of the index *)

Lemma combine_seq_elem (xs : list scalar) a i x :
  xs !! i = Some x -> In ((a + i)%nat, x) (combine (seq a (length xs)) xs).
Proof.
  revert a i. induction xs as [|y xs IH]; intros a [|i] H; try done.
  - cbn in H. inversion H; subst. left. f_equal. lia.
  - cbn in H. right. replace (a + Datatypes.S i)%nat with (Datatypes.S a + i)%nat by lia.
    by apply IH.
Qed.

Lemma hits_positions (cs ss : list string) (sims : list scalar) hits
    (ps : list (nat * scalar)) :
  Forall2 (fun h p => cs !! fst p = Some (chunk h) /\
                      ss !! fst p = Some (source h)) hits ps ->
  map score hits = map snd ps ->
  (forall p, In p ps -> sims !! fst p = Some (snd p)) ->
  Forall2 (fun h i => cs !! i = Some (chunk h) /\ ss !! i = Some (source h) /\
                      sims !! i = Some (score h)) hits (map fst ps).
Proof.
  induction 1 as [|h p hits ps [Hc Hs] Hf IH]; cbn; intros Hsc Hl; [constructor|].
  inversion Hsc as [[Hh Ht]]. constructor.
  - split; [done|]. split; [done|]. rewrite Hh. apply Hl. by left.
  - apply IH; [done|]. intros q Hq. apply Hl. by right.
Qed.

Lemma selected_NoDup sims k : NoDup (map fst (selected (K:=K) sims k)).
Proof.
  rewrite <- selected_idxs, slice_from.
  apply NoDup_ListNoDup, List.NoDup_rev.
  apply (List.NoDup_app_remove_l
           (firstn (Z.to_nat (Py.clamp_index
                                (Z.of_nat (length (argsort sims))) (- k)))
                   (argsort sims))).
  rewrite firstn_skipn. apply NoDup_ListNoDup.
  rewrite argsort_perm. apply NoDup_seq.
Qed.

(** An index position that is not selected scores no higher than any
    selected one. *)
Lemma selected_best `{!TotalOrder K} sims k j x :
  sims !! j = Some x ->
  j ∉ map fst (selected sims k) ->
  Forall (fun y => fleb x y = true) (map snd (selected sims k)).
Proof.
  intros Hj Hout. unfold selected in *.
  set (m := Z.to_nat (Py.clamp_index (Z.of_nat (length sims)) (- k))) in *.
  set (sorted := sort_keys (combine (seq 0 (length sims)) sims)) in *.
  assert (In (j, x) sorted) as Hin.
  { apply (Permutation_in _ (Permutation_sym (sort_keys_perm _))).
    apply (combine_seq_elem sims 0 j x Hj). }
  pose proof (sort_keys_sorted (combine (seq 0 (length sims)) sims)) as Hs.
  fold sorted in Hs. rewrite <- (firstn_skipn m sorted) in Hs, Hin.
  apply in_app_or in Hin as [Hin|Hin].
  - apply Forall_forall. intros y Hy.
    apply map_elem_inv in Hy as (p & <- & Hp).
    apply list_elem_of_In, in_rev, list_elem_of_In in Hp.
    apply (StronglySorted_app_1_elem_of _ _ _ (j, x) p Hs);
      [by apply list_elem_of_In | done].
  - exfalso. apply Hout.
    apply (map_elem_intro fst _ (j, x)).
    apply list_elem_of_In. rewrite <- in_rev. exact Hin.
Qed.

(** X4: what a query returns on a miss are the best entries of the index.
    For every [k], the results are the entries at pairwise distinct
    positions of the index, each with the chunk, the source and the
    similarity score of its position, and every position of the index that
    is not returned scores no higher than any result. *)
Theorem query_returns_best `{!TotalOrder K} question k self q_emb :
  query_cache self !! _hash question = None ->
  chunks self <> [] ->
  aligned self ->
  encode (encode_calls self) question = Some q_emb ->
  let sims := cosine_sims (embeddings self) q_emb in
  exists results idxs,
    fst (query question k self) = Ok results /\
    NoDup idxs /\
    Forall2 (fun h i => chunks self !! i = Some (chunk h) /\
                        sources self !! i = Some (source h) /\
                        sims !! i = Some (score h)) results idxs /\
    (forall j x, sims !! j = Some x -> j ∉ idxs ->
       Forall (fun h => fleb x (score h) = true) results).
Proof.
  intros Hmiss Hne Hal Henc sims.
  pose proof (query_miss question k self Hmiss Hne) as Hq. cbn zeta in Hq.
  rewrite Henc in Hq.
  destruct (collect_selected self q_emb k Hal) as (hits & Hh & Hsc & Hf).
  cbn zeta in Hh. rewrite Hh in Hq. fold sims in Hsc, Hf.
  exists hits, (map fst (selected sims k)). rewrite Hq.
  split; [done|]. split; [apply selected_NoDup|]. split.
  - apply hits_positions; [done | done |].
    intros p Hp. by apply selected_lookup in Hp as [_ ?].
  - intros j x Hj Hout. apply Forall_map with (f := score)
      (P := fun y : scalar => fleb x y = true).
    rewrite Hsc. by apply (selected_best sims k j x).
Qed.

(** ** The cache outlives reconciliation *)

Lemma sync_cache fs self r self' :
  _sync_index_with_files fs self = (r, self') ->
  query_cache self' = query_cache self.
Proof.
  rewrite sync_unfold. cbn zeta. set (stored := files_meta (working (conn self))).
  intros H. apply bind_inv in H as [(a & self1 & H1 & H2)|(e & H1 & ->)].
  - apply loop_add_spec in H1 as [(_ & _ & _ & Hq1) _];
      [|apply current_items_NoDup|apply current_items_in_folder|done].
    destruct (loop_remove_spec
                (elements (dom stored ∖ list_to_set (map fst (current_items fs))
                           : gset string))
                self1) as (self2 & Hrun & (_ & _ & _ & Hq2) & _).
    unfold bind in H2. rewrite Hrun in H2.
    pose proof (load_frame self2) as (_ & _ & Hq3).
    destruct (_load_from_db self2) as [r3 self3]. cbn in Hq3.
    inversion H2; subst. congruence.
  - apply loop_add_spec in H1 as [(_ & _ & _ & Hq1) _];
      [done|apply current_items_NoDup|apply current_items_in_folder|done].
Qed.

(** X5: reconciliation never invalidates the query cache.  Whatever a pass
    does to the store and the index, and whether it returns or raises, a
    question that was cached before it is answered after it with the cached
    result, for every [k], without a call to the embedding model and
    without a look at the new index. *)
Theorem reconcile_keeps_cache fs self r self' question cached k :
  query_cache self !! _hash question = Some cached ->
  _sync_index_with_files fs self = (r, self') ->
  query question k self' = (Ok cached, self').
Proof.
  intros Hc H. apply query_hit. by rewrite (sync_cache _ _ _ _ H).
Qed.

(** ** The empty corpus *)

Lemma no_rows (d : Database K) : (forall g, rows_of g d = []) -> documents d = [].
Proof.
  intros H. destruct (documents d) as [|r l] eqn:E; [done|].
  specialize (H (row_source r)). unfold rows_of in H. rewrite E in H.
  by rewrite filter_cons_True in H.
Qed.

Lemma empty_corpus_init fs db question k :
  (forall f, is_Some (fs !! f) -> eligible f = false) ->
  documents db = [] ->
  exists self,
    __init__ fs db = (Ok tt, self) /\
    chunks self = [] /\ encode_calls self = [] /\
    query question k self = (Ok [], self).
Proof.
  intros Hno Hdb. unfold __init__.
  assert (current_items fs = []) as Hitems.
  { destruct (current_items fs) as [|[f sha] l] eqn:E; [done|]. exfalso.
    assert ((f, sha) ∈ current_items fs) as Hin by (rewrite E; left).
    apply elem_of_current_items in Hin as (c & Hc & Hel & _).
    rewrite Hno in Hel; [done | by eexists]. }
  destruct (_sync_index_with_files fs (new_object db)) as [[[]|e] self] eqn:H.
  - exists self. split; [done|].
    pose proof (sync_ok _ _ _ H) as (_ & (Hch & _) & Hqc & Hl & Hfr & Hrm).
    pose proof (sync_calls _ _ _ H) as Hcalls. rewrite Hitems in Hcalls.
    assert (chunks self = []) as Hnil.
    { rewrite Hch, (no_rows (working (conn self))); [done|].
      intros g. cbn in Hfr, Hrm.
      assert (digests fs !! g = None) as Hd.
      { rewrite lookup_digests. destruct (eligible g) eqn:Hel; [|done].
        destruct (fs !! g) eqn:Hg; [|done]. rewrite Hno in Hel; [done|by eexists]. }
      destruct (files_meta db !! g) eqn:Hst.
      - apply Hrm; [by rewrite Hst | done].
      - rewrite Hfr by by rewrite Hst, Hd. unfold rows_of. by rewrite Hdb. }
    split; [done|]. split; [done|].
    apply query_empty; [|done]. rewrite Hqc. apply lookup_empty.
  - exfalso. apply sync_raise in H as (_ & _ & f & c & Hc & Hel & _); [|done].
    rewrite Hno in Hel; [done | by eexists].
Qed.

(** X6: the empty corpus.  The engine constructed on a store without
    chunk rows and a folder without a [.txt] or [.md] file comes up without
    a call to the embedding model, with an empty index, and it answers every
    question, for every [k], with the empty list, again without a call and
    without an entry in the cache. *)
Theorem empty_corpus_answers_nothing fs db question k :
  (forall f, is_Some (fs !! f) -> eligible f = false) ->
  documents db = [] ->
  exists self,
    __init__ fs db = (Ok tt, self) /\
    chunks self = [] /\ encode_calls self = [] /\
    query question k self = (Ok [], self).
Proof. apply empty_corpus_init. Qed.

End QueryFacts.

(** ** Cosine similarity in exact arithmetic *)











Section ExactMatch.

Context {S : Services RealKernel.kernel}.


End ExactMatch.

(** ** The rolling history of the chat front end *)

Lemma last_n_rev {A} (n : nat) (l : list A) : last_n n l = rev (firstn n (rev l)).
Proof. unfold last_n. by rewrite firstn_rev, rev_involutive. Qed.

Lemma firstn_app_firstn {A} (n m : nat) (x y : list A) :
  (n <= m)%nat -> firstn n (x ++ firstn m y) = firstn n (x ++ y).
Proof.
  revert n. induction x as [|c x IH]; intros n Hn.
  - cbn. rewrite firstn_firstn. f_equal. lia.
  - destruct n as [|n]; [done|]. cbn. f_equal. apply IH. lia.
Qed.

Lemma last_n_app_last_n {A} (n : nat) (a b : list A) :
  last_n n (last_n n a ++ b) = last_n n (a ++ b).
Proof.
  rewrite !last_n_rev, !rev_app_distr, rev_involutive. f_equal.
  by apply firstn_app_firstn.
Qed.

Lemma last_n_short {A} (n : nat) (l : list A) :
  (length l <= n)%nat -> last_n n l = l.
Proof. intros H. unfold last_n. by replace (length l - n)%nat with 0%nat by lia. Qed.

Lemma length_last_n {A} (n : nat) (l : list A) :
  length (last_n n l) = Nat.min n (length l).
Proof. unfold last_n. rewrite length_skipn. lia. Qed.

Lemma slice_last_three {A} (l : list A) : Py.slice l (Some (-3)) None = last_n 3 l.
Proof.
  rewrite slice_from. unfold last_n, Py.clamp_index. f_equal.
  destruct (Z.ltb_spec (-3) 0); lia.
Qed.

Section BotFacts.

Context {K : NumPy} {S : Services K} {B : BotServices K}.

(** One call of [add_history], seen from any user. *)
Lemma add_history_lookup uid text (history : gmap Z (list string)) u :
  default [] (add_history uid text history !! u) =
  if decide (u = uid) then last_n 3 (default [] (history !! uid) ++ [text])
  else default [] (history !! u).
Proof.
  unfold add_history. destruct (decide (u = uid)) as [->|Hne].
  - rewrite lookup_insert_eq. cbn [default].
    destruct (Nat.ltb_spec 3 (length (default [] (history !! uid) ++ [text]))).
    + apply slice_last_three.
    + by rewrite last_n_short.
  - by rewrite lookup_insert_ne.
Qed.

Lemma history_after_lookup events (history : gmap Z (list string)) uid :
  (length (default [] (history !! uid)) <= 3)%nat ->
  default [] (history_after events history !! uid) =
  last_n 3 (default [] (history !! uid) ++
            map snd (filter (fun e => fst e = uid) events)).
Proof.
  revert history. induction events as [|[u t] events IH]; intros history Hlen.
  - cbn. by rewrite app_nil_r, last_n_short.
  - cbn [history_after foldl fst snd].
    change (foldl _ ?h events) with (history_after events h).
    rewrite IH.
    + rewrite add_history_lookup. destruct (decide (uid = u)) as [->|Hne].
      * rewrite filter_cons_True by done. cbn [map snd].
        rewrite last_n_app_last_n, <- app_assoc. done.
      * rewrite filter_cons_False by (cbn; congruence). done.
    + rewrite add_history_lookup. destruct (decide (uid = u)); [|done].
      rewrite length_last_n. lia.
Qed.

(** X9: the history is a rolling window of three.  From a history that
    holds at most three questions of a user, after any sequence of
    [add_history] calls, of this user and of others, the history of the user
    is the last three of the questions it held followed by the user's new
    ones, in order; the questions of other users do not count. *)
Theorem history_keeps_last_three events (history : gmap Z (list string)) uid :
  (length (default [] (history !! uid)) <= 3)%nat ->
  default [] (history_after events history !! uid) =
  last_n 3 (default [] (history !! uid) ++
            map snd (filter (fun e => fst e = uid) events)).
Proof. apply history_after_lookup. Qed.

(** ** [ask] and the engine *)


(** A query that returned is answered again with the same result by the
    object it left. *)
Lemma query_again question k k' (self : MiniRAG K) results self1 :
  query question k self = (Ok results, self1) ->
  query question k' self1 = (Ok results, self1).
Proof.
  intros H. destruct (query_cache self !! _hash question) as [cached|] eqn:Hc.
  - rewrite (query_hit _ k _ _ Hc) in H. inversion H; subst. by apply query_hit.
  - destruct (chunks self) as [|c cs] eqn:E.
    + rewrite (query_empty _ k _ Hc E) in H. inversion H; subst.
      by apply query_empty.
    + assert (chunks self <> []) as Hne by congruence.
      pose proof (query_miss question k self Hc Hne) as Hm. cbn zeta in Hm.
      destruct (encode (encode_calls self) question) as [q|];
        [destruct (collect_hits _ _ _ _) as [hits|e]|];
        rewrite Hm in H; inversion H; subst.
      apply query_hit. cbn. apply lookup_insert_eq.
Qed.

(** On a ranked list, the results that reach a threshold are a leading
    segment. *)
Lemma filter_ranked_prefix `{!TotalOrder K} (t : scalar) (l : list (Hit K)) :
  ranked l ->
  List.filter (fun r => fleb t (score r)) l =
  firstn (length (List.filter (fun r => fleb t (score r)) l)) l.
Proof.
  induction 1 as [|h l Hs IH Hh]; [done|]. cbn.
  destruct (fleb t (score h)) eqn:E; cbn; [by rewrite <- IH|].
  replace (List.filter _ l) with (@nil (Hit K)); [done|].
  symmetry. clear IH Hs. induction Hh as [|h2 l Hh2 Hh IH]; [done|]. cbn.
  destruct (fleb t (score h2)) eqn:E2; [|exact IH].
  rewrite (fleb_trans _ _ _ E2 Hh2) in E. discriminate.
Qed.

Lemma select_context_prefix `{!TotalOrder K} best rest :
  ranked (best :: rest) ->
  exists m, (1 <= m <= length (best :: rest))%nat /\
    select_context best (best :: rest) = firstn m (best :: rest) /\
    (Forall (fun r => fleb lit_0_50 (score r) = true) (firstn m (best :: rest))
     \/ m = 1%nat).
Proof.
  intros Hr. unfold select_context.
  pose proof (filter_ranked_prefix lit_0_50 _ Hr) as Hp.
  set (filtered := List.filter (fun r => fleb lit_0_50 (score r)) (best :: rest)) in *.
  assert (Forall (fun r => fleb lit_0_50 (score r) = true) filtered) as Hall.
  { apply Forall_forall. intros r Hin.
    apply list_elem_of_In, filter_In in Hin as [_ Hin]. exact Hin. }
  assert (length filtered <= length (best :: rest))%nat as Hle
    by apply filter_length_le.
  destruct filtered as [|r filtered'] eqn:E.
  - exists 1%nat. cbn. split; [lia|]. split; [done | by right].
  - exists (length (r :: filtered')). split; [cbn in *; lia|].
    split; [exact Hp|]. left. by rewrite <- Hp.
Qed.

(** On a miss, [k >= 1]: the results are ranked, [min k n] of them. *)
Lemma query_miss_ranked `{!TotalOrder K} question k (self : MiniRAG K) q_emb :
  1 <= k ->
  query_cache self !! _hash question = None ->
  chunks self <> [] ->
  aligned self ->
  encode (encode_calls self) question = Some q_emb ->
  exists results,
    query question k self =
      (Ok results,
       set_query_cache (<[_hash question := results]> (query_cache self))
         (set_encode_calls (encode_calls self ++ [question]) self)) /\
    length results = Nat.min (Z.to_nat k) (length (chunks self)) /\
    ranked results.
Proof.
  intros Hk Hmiss Hne Hal Henc.
  destruct (query_miss_ok question k self q_emb Hmiss Hne Hal Henc)
    as (results & Hq & Hsc & _). cbn zeta in Hsc.
  exists results. split; [exact Hq|]. split.
  - rewrite <- (length_map score), Hsc, length_map, length_selected.
    rewrite length_cosine_sims. destruct Hal as [-> ->].
    destruct (Z.leb_spec 1 k); [reflexivity | lia].
  - unfold ranked. apply StronglySorted_map with (f := score)
      (R := fun x y : scalar => fleb y x = true).
    rewrite Hsc. apply StronglySorted_map. apply selected_sorted.
Qed.

Lemma call_hf_llm_frame prompt (bot : Bot K) :
  rag (snd (call_hf_llm prompt bot)) = rag bot /\
  user_history (snd (call_hf_llm prompt bot)) = user_history bot /\
  llm_calls (snd (call_hf_llm prompt bot)) = llm_calls bot ++ [prompt].
Proof.
  unfold call_hf_llm. by destruct (chat_completion (llm_calls bot) prompt).
Qed.

(** What [ask] does with a question, by the outcome of the retrieval. *)
Lemma ask_cases a args uid (bot : Bot K) :
  let question := Py.join " " (a :: args) in
  let history := add_history uid question (user_history bot) in
  match query question 5 (rag bot) with
  | (Raise e, rag') =>
      ask (a :: args) uid bot = (Raise e, mkBot rag' history (llm_calls bot))
  | (Ok [], rag') =>
      ask (a :: args) uid bot =
      (Ok (Text "No relevant information found."),
       mkBot rag' history (llm_calls bot))
  | (Ok (best :: rest), rag') =>
      let filtered := select_context best (best :: rest) in
      let prompt := ask_prompt (Py.join (nl +:+ nl) (map chunk filtered)) question in
      exists answer,
        ask (a :: args) uid bot =
        (Ok (Sources answer
               (map (fun r => (source r, score r, snippet (chunk r))) filtered)),
         mkBot rag' history (llm_calls bot ++ [prompt]))
  end.
Proof.
  cbn zeta. unfold ask.
  destruct (query (Py.join " " (a :: args)) 5 (rag bot)) as [[[|best rest]|e] rag'];
    try reflexivity.
  unfold call_hf_llm. cbn [llm_calls rag user_history].
  destruct (chat_completion _ _); eexists; reflexivity.
Qed.


(** X11: the sources of an answer are a leading segment of the ranking.
    On a miss with a non-empty aligned index and an oracle that answers,
    [ask] retrieves with [k = 5] and replies with between one and five
    sources: the first [m] results of the ranking, in order, which are
    either all the results with a score of at least 0.50 or the best result
    alone; the prompt sent to the language model is the template filled
    with the chunks of these sources, joined by blank lines, and the
    question. *)
Theorem ask_shows_leading_sources `{!TotalOrder K} args uid (bot : Bot K) q_emb :
  args <> [] ->
  let question := Py.join " " args in
  query_cache (rag bot) !! _hash question = None ->
  chunks (rag bot) <> [] ->
  aligned (rag bot) ->
  encode (encode_calls (rag bot)) question = Some q_emb ->
  exists results m answer,
    fst (query question 5 (rag bot)) = Ok results /\
    (1 <= m <= Nat.min 5 (length (chunks (rag bot))))%nat /\
    (Forall (fun r => fleb lit_0_50 (score r) = true) (firstn m results)
     \/ m = 1%nat) /\
    fst (ask args uid bot) =
      Ok (Sources answer
            (map (fun r => (source r, score r, snippet (chunk r)))
                 (firstn m results))) /\
    llm_calls (snd (ask args uid bot)) =
      llm_calls bot ++
      [ask_prompt (Py.join (nl +:+ nl) (map chunk (firstn m results))) question].
Proof.
  intros Hargs question Hmiss Hne Hal Henc.
  destruct args as [|a args]; [done|].
  destruct (query_miss_ranked question 5 (rag bot) q_emb ltac:(lia)
              Hmiss Hne Hal Henc) as (results & Hq & Hlen & Hrk).
  pose proof (ask_cases a args uid bot) as Hc. cbn zeta in Hc.
  fold question in Hc. rewrite Hq in Hc.
  destruct results as [|best rest].
  { exfalso. cbn in Hlen. destruct (chunks (rag bot)); [done | cbn in Hlen; lia]. }
  destruct (select_context_prefix best rest Hrk) as (m & Hm & Hsel & Hall).
  destruct Hc as [answer Hc]. rewrite Hsel in Hc.
  exists (best :: rest), m, answer. rewrite Hq, Hc. cbn [fst snd llm_calls].
  split; [done|]. split; [lia|]. done.
Qed.

(** X12: a repeated question costs no embedding.  If [ask] returned, the
    same command again, from any user, is answered from the query cache:
    the engine is left as it is, without a call to the embedding model,
    and the reply has the same sources; the language model, whose answers
    are not cached, is called again with the same prompt. *)
Theorem repeated_ask_uses_cache args uid uid' (bot : Bot K) reply bot1 :
  ask args uid bot = (Ok reply, bot1) ->
  exists reply',
    fst (ask args uid' bot1) = Ok reply' /\
    rag (snd (ask args uid' bot1)) = rag bot1 /\
    match reply, reply' with
    | Text s, Text s' =>
        s = s' /\ llm_calls (snd (ask args uid' bot1)) = llm_calls bot1
    | Sources _ shown, Sources _ shown' =>
        shown = shown' /\
        exists prompt,
          llm_calls bot1 = llm_calls bot ++ [prompt] /\
          llm_calls (snd (ask args uid' bot1)) = llm_calls bot1 ++ [prompt]
    | _, _ => False
    end.
Proof.
  intros H. destruct args as [|a args].
  - cbn in H. inversion H; subst. exists (Text "Usage: /ask <question>"). done.
  - pose proof (ask_cases a args uid bot) as Hc. cbn zeta in Hc.
    destruct (query (Py.join " " (a :: args)) 5 (rag bot))
      as [[retrieved|e] rag'] eqn:Hq; [|rewrite Hc in H; discriminate].
    pose proof (query_again _ 5 5 _ _ _ Hq) as Hq'.
    set (history := add_history uid (Py.join " " (a :: args)) (user_history bot)) in *.
    destruct retrieved as [|best rest].
    + rewrite Hc in H.
      assert (reply = Text "No relevant information found." /\
              bot1 = mkBot rag' history (llm_calls bot)) as [-> ->]
        by (by inversion H).
      pose proof (ask_cases a args uid' (mkBot rag' history (llm_calls bot))) as Hc'.
      cbn zeta in Hc'. cbn [rag] in Hc'. rewrite Hq' in Hc'.
      exists (Text "No relevant information found."). rewrite Hc'. done.
    + destruct Hc as [answer Hc]. rewrite Hc in H.
      set (prompt := ask_prompt _ _) in *.
      set (shown := map (fun r : Hit K => (source r, score r, snippet (chunk r)))
                        (select_context best (best :: rest))) in *.
      assert (reply = Sources answer shown /\
              bot1 = mkBot rag' history (llm_calls bot ++ [prompt])) as [-> ->]
        by (by inversion H).
      pose proof (ask_cases a args uid'
                    (mkBot rag' history (llm_calls bot ++ [prompt]))) as Hc'.
      cbn zeta in Hc'. cbn [rag] in Hc'. rewrite Hq' in Hc'.
      destruct Hc' as [answer' Hc'].
      eexists. rewrite Hc'. cbn [fst snd rag llm_calls].
      split; [reflexivity|]. split; [done|]. split; [done|].
      exists prompt. done.
Qed.

(** X13: the chat front end on an empty corpus.  Started on a store
    without chunk rows and a folder without a [.txt] or [.md] file, the
    process answers every [/ask] with arguments by "No relevant information
    found.", and neither the embedding model nor the language model is
    called. *)
Theorem ask_on_empty_corpus fs db args uid :
  (forall f, is_Some (fs !! f) -> eligible f = false) ->
  documents db = [] ->
  args <> [] ->
  exists bot,
    start fs db = Ok bot /\
    fst (ask args uid bot) = Ok (Text "No relevant information found.") /\
    llm_calls (snd (ask args uid bot)) = [] /\
    encode_calls (rag (snd (ask args uid bot))) = [].
Proof.
  intros Hno Hdb Hargs. destruct args as [|a args]; [done|].
  destruct (empty_corpus_init fs db (Py.join " " (a :: args)) 5 Hno Hdb)
    as (self & Hinit & _ & Hcalls & Hq).
  exists (mkBot self ∅ []). unfold start. rewrite Hinit. split; [done|].
  pose proof (ask_cases a args uid (mkBot self ∅ [])) as Hc. cbn zeta in Hc.
  cbn [rag] in Hc. rewrite Hq in Hc. rewrite Hc. done.
Qed.

(** X15: [/summarize] works on the user's last three questions.  When the
    history is the one built by [add_history] from the questions asked so
    far, [summarize] for a user without questions replies "No recent
    messages." and calls nothing; otherwise it sends the language model one
    prompt, the fixed request followed by the user's last three questions,
    one per line and oldest first, and it leaves the engine and the
    history as they are. *)
Theorem summarize_sends_last_three events uid (bot : Bot K) :
  user_history bot = history_after events ∅ ->
  let texts := map snd (filter (fun e => fst e = uid) events) in
  match texts with
  | [] => summarize uid bot = (Text "No recent messages.", bot)
  | _ =>
      exists summary,
        summarize uid bot =
        (Text ("Summary:" +:+ nl +:+ summary),
         mkBot (rag bot) (user_history bot)
               (llm_calls bot ++
                ["Summarize the following in a short paragraph:"
                 +:+ nl +:+ nl +:+ Py.join nl (last_n 3 texts)]))
  end.
Proof.
  intros Hh texts.
  assert (default [] (user_history bot !! uid) = last_n 3 texts) as Hl.
  { rewrite Hh, history_after_lookup; [|rewrite lookup_empty; cbn; lia].
    by rewrite lookup_empty. }
  unfold summarize. rewrite Hl.
  destruct texts as [|t texts'] eqn:E; [reflexivity|].
  destruct (last_n 3 (t :: texts')) as [|x l] eqn:El.
  { apply (f_equal length) in El. rewrite length_last_n in El. cbn in El. lia. }
  unfold call_hf_llm. destruct (chat_completion _ _); eexists; reflexivity.
Qed.

End BotFacts.

(** ** The further properties at concrete inputs *)

Lemma chunks_are_trimmed_witness :
  1 <= 2 /\
  _chunk_text " a bb  c dd e " 2 = Ok ["a bb"; "c dd"; "e"]%string /\
  Forall (fun c => Py.strip c = c /\ c <> ""%string)
         ["a bb"; "c dd"; "e"]%string.
Proof.
  assert (1 <= 2) as HW by lia.
  assert (_chunk_text " a bb  c dd e " 2 = Ok ["a bb"; "c dd"; "e"]%string)
    as H by reflexivity.
  do 2 (split; [assumption|]).
  exact (chunks_are_trimmed _ _ _ HW H).
Defined.

Lemma reconcile_embeds_changed_only_witness :
  _sync_index_with_files Demo.folder (new_object Demo.empty_db) =
    (Ok tt, Demo.engine) /\
  encode_calls Demo.engine =
    encode_calls (new_object Demo.empty_db) ++
    concat (map (work_of Demo.folder
                   (files_meta (working (conn (new_object Demo.empty_db)))))
                (@current_items FloatKernel.kernel Demo.services Demo.folder)).
Proof.
  assert (_sync_index_with_files Demo.folder (new_object Demo.empty_db) =
          (Ok tt, Demo.engine)) as H by (vm_compute; reflexivity).
  split; [exact H|].
  exact (reconcile_embeds_changed_only _ _ _ H).
Defined.

Lemma reconcile_keeps_store_faithful_witness :
  reflects (working (conn (new_object Demo.empty_db))) /\
  _sync_index_with_files Demo.folder (new_object Demo.empty_db) =
    (Ok tt, Demo.engine) /\
  reflects (working (conn Demo.engine)) /\
  (forall f content, Demo.folder !! f = Some content -> eligible f = true ->
     exists c, @_sha1 FloatKernel.kernel Demo.services content =
               @_sha1 FloatKernel.kernel Demo.services c /\
       Forall2 (row_holds f) (rows_of f (working (conn Demo.engine)))
               (chunks_of c)) /\
  (forall f, (Demo.folder !! f = None \/ eligible f = false) ->
     rows_of f (working (conn Demo.engine)) = []).
Proof.
  assert (reflects (working (conn (new_object Demo.empty_db)))) as Hr
    by (intros f; reflexivity).
  assert (_sync_index_with_files Demo.folder (new_object Demo.empty_db) =
          (Ok tt, Demo.engine)) as H by (vm_compute; reflexivity).
  do 2 (split; [assumption|]).
  exact (reconcile_keeps_store_faithful _ _ _ Hr H).
Defined.

Lemma query_returns_best_witness :
  query_cache RealDemo.engine !! @_hash RealKernel.kernel RealDemo.services "q"
    = None /\
  chunks RealDemo.engine <> [] /\
  aligned RealDemo.engine /\
  encode (encode_calls RealDemo.engine) "q" = Some (RealDemo.q_emb) /\
  exists results idxs,
    fst (query "q" 1 RealDemo.engine) = Ok results /\
    NoDup idxs /\
    Forall2 (fun h i =>
               chunks RealDemo.engine !! i = Some (chunk h) /\
               sources RealDemo.engine !! i = Some (source h) /\
               cosine_sims (embeddings RealDemo.engine) RealDemo.q_emb !! i =
                 Some (score h)) results idxs /\
    (forall j x,
       cosine_sims (embeddings RealDemo.engine) RealDemo.q_emb !! j = Some x ->
       j ∉ idxs ->
       Forall (fun h => fleb x (score h) = true) results).
Proof.
  assert (query_cache RealDemo.engine !!
            @_hash RealKernel.kernel RealDemo.services "q" = None) as Hm
    by reflexivity.
  assert (chunks RealDemo.engine <> []) as Hn by discriminate.
  assert (aligned RealDemo.engine) as Ha by (split; reflexivity).
  assert (encode (encode_calls RealDemo.engine) "q" = Some (RealDemo.q_emb)) as He
    by reflexivity.
  do 4 (split; [assumption|]).
  exact (query_returns_best "q" 1 RealDemo.engine RealDemo.q_emb Hm Hn Ha He).
Defined.

Lemma reconcile_keeps_cache_witness :
  query_cache Demo.engine1 !! @_hash FloatKernel.kernel Demo.services "q" =
    Some Demo.hits1 /\
  _sync_index_with_files Demo.folder2 Demo.engine1 =
    (Raise OracleError, snd (_sync_index_with_files Demo.folder2 Demo.engine1)) /\
  query "q" 3 (snd (_sync_index_with_files Demo.folder2 Demo.engine1)) =
    (Ok Demo.hits1, snd (_sync_index_with_files Demo.folder2 Demo.engine1)).
Proof.
  assert (query_cache Demo.engine1 !!
            @_hash FloatKernel.kernel Demo.services "q" = Some Demo.hits1) as Hc
    by (vm_compute; reflexivity).
  assert (_sync_index_with_files Demo.folder2 Demo.engine1 =
          (Raise OracleError,
           snd (_sync_index_with_files Demo.folder2 Demo.engine1))) as H
    by (vm_compute; reflexivity).
  do 2 (split; [assumption|]).
  exact (reconcile_keeps_cache _ _ _ _ "q" _ 3 Hc H).
Defined.

Lemma empty_corpus_answers_nothing_witness :
  (forall f, is_Some (BotDemo.other_folder !! f) -> eligible f = false) /\
  documents Demo.empty_db = [] /\
  exists self,
    __init__ BotDemo.other_folder Demo.empty_db = (Ok tt, self) /\
    chunks self = [] /\ encode_calls self = [] /\
    query "q" 5 self = (Ok [], self).
Proof.
  assert (forall f, is_Some (BotDemo.other_folder !! f) -> eligible f = false)
    as Hno.
  { intros f [c Hc]. unfold BotDemo.other_folder in Hc.
    apply lookup_singleton_Some in Hc as [<- _]. reflexivity. }
  assert (documents Demo.empty_db = []) as Hd by reflexivity.
  do 2 (split; [assumption|]).
  exact (empty_corpus_answers_nothing _ _ "q" 5 Hno Hd).
Defined.




Lemma history_keeps_last_three_witness :
  (length (default [] ((∅ : gmap Z (list string)) !! 1%Z)) <= 3)%nat /\
  default [] (history_after BotDemo.events ∅ !! 1) =
  last_n 3 (default [] ((∅ : gmap Z (list string)) !! 1) ++
            map snd (filter (fun e => fst e = 1) BotDemo.events)).
Proof.
  assert (length (default [] ((∅ : gmap Z (list string)) !! 1%Z)) <= 3)%nat as H
    by (vm_compute; lia).
  split; [exact H|].
  exact (history_keeps_last_three BotDemo.events ∅ 1 H).
Defined.


Lemma ask_shows_leading_sources_witness :
  ["q"%string] <> [] /\
  query_cache (rag RealBotDemo.bot) !!
    @_hash RealKernel.kernel RealDemo.services (Py.join " " ["q"%string]) = None /\
  chunks (rag RealBotDemo.bot) <> [] /\
  aligned (rag RealBotDemo.bot) /\
  encode (encode_calls (rag RealBotDemo.bot)) (Py.join " " ["q"%string]) =
    Some RealDemo.q_emb /\
  exists results m answer,
    fst (query (Py.join " " ["q"%string]) 5 (rag RealBotDemo.bot)) = Ok results /\
    (1 <= m <= Nat.min 5 (length (chunks (rag RealBotDemo.bot))))%nat /\
    (Forall (fun r => fleb lit_0_50 (score r) = true) (firstn m results)
     \/ m = 1%nat) /\
    fst (ask ["q"%string] 7 RealBotDemo.bot) =
      Ok (Sources answer
            (map (fun r => (source r, score r, snippet (chunk r)))
                 (firstn m results))) /\
    llm_calls (snd (ask ["q"%string] 7 RealBotDemo.bot)) =
      llm_calls RealBotDemo.bot ++
      [ask_prompt (Py.join (nl +:+ nl) (map chunk (firstn m results)))
                  (Py.join " " ["q"%string])].
Proof.
  assert (["q"%string] <> []) as H by discriminate.
  assert (query_cache (rag RealBotDemo.bot) !!
            @_hash RealKernel.kernel RealDemo.services
              (Py.join " " ["q"%string]) = None) as Hm by reflexivity.
  assert (chunks (rag RealBotDemo.bot) <> []) as Hn by discriminate.
  assert (aligned (rag RealBotDemo.bot)) as Ha by (split; reflexivity).
  assert (encode (encode_calls (rag RealBotDemo.bot))
                 (Py.join " " ["q"%string]) = Some RealDemo.q_emb) as He
    by reflexivity.
  do 5 (split; [assumption|]).
  exact (ask_shows_leading_sources ["q"%string] 7 RealBotDemo.bot
           RealDemo.q_emb H Hm Hn Ha He).
Defined.

Lemma repeated_ask_uses_cache_witness :
  ask ["q"%string] 7 BotDemo.bot = (Ok BotDemo.reply1, BotDemo.bot1) /\
  exists reply',
    fst (ask ["q"%string] 8 BotDemo.bot1) = Ok reply' /\
    rag (snd (ask ["q"%string] 8 BotDemo.bot1)) = rag BotDemo.bot1 /\
    match BotDemo.reply1, reply' with
    | Text s, Text s' =>
        s = s' /\
        llm_calls (snd (ask ["q"%string] 8 BotDemo.bot1)) = llm_calls BotDemo.bot1
    | Sources _ shown, Sources _ shown' =>
        shown = shown' /\
        exists prompt,
          llm_calls BotDemo.bot1 = llm_calls BotDemo.bot ++ [prompt] /\
          llm_calls (snd (ask ["q"%string] 8 BotDemo.bot1)) =
            llm_calls BotDemo.bot1 ++ [prompt]
    | _, _ => False
    end.
Proof.
  assert (ask ["q"%string] 7 BotDemo.bot = (Ok BotDemo.reply1, BotDemo.bot1))
    as H by (vm_compute; reflexivity).
  split; [exact H|].
  exact (repeated_ask_uses_cache ["q"%string] 7 8 BotDemo.bot _ _ H).
Defined.

Lemma ask_on_empty_corpus_witness :
  (forall f, is_Some (BotDemo.other_folder !! f) -> eligible f = false) /\
  documents Demo.empty_db = [] /\
  ["q"%string] <> [] /\
  exists bot,
    start BotDemo.other_folder Demo.empty_db = Ok bot /\
    fst (ask ["q"%string] 7 bot) = Ok (Text "No relevant information found.") /\
    llm_calls (snd (ask ["q"%string] 7 bot)) = [] /\
    encode_calls (rag (snd (ask ["q"%string] 7 bot))) = [].
Proof.
  assert (forall f, is_Some (BotDemo.other_folder !! f) -> eligible f = false)
    as Hno.
  { intros f [c Hc]. unfold BotDemo.other_folder in Hc.
    apply lookup_singleton_Some in Hc as [<- _]. reflexivity. }
  assert (documents Demo.empty_db = []) as Hd by reflexivity.
  assert (["q"%string] <> []) as H by discriminate.
  do 3 (split; [assumption|]).
  exact (ask_on_empty_corpus _ _ ["q"%string] 7 Hno Hd H).
Defined.

Lemma summarize_sends_last_three_witness :
  user_history BotDemo.asked = history_after BotDemo.events ∅ /\
  exists summary,
    summarize 1 BotDemo.asked =
    (Text ("Summary:" +:+ nl +:+ summary),
     mkBot (rag BotDemo.asked) (user_history BotDemo.asked)
           (llm_calls BotDemo.asked ++
            ["Summarize the following in a short paragraph:"
             +:+ nl +:+ nl +:+ Py.join nl ["c"; "d"; "e"]%string])).
Proof.
  assert (user_history BotDemo.asked = history_after BotDemo.events ∅) as H
    by reflexivity.
  split; [exact H|].
  exact (summarize_sends_last_three BotDemo.events 1 BotDemo.asked H).
Defined.

Lemma chunk_text_nonpositive_window_witness :
  -2 <= 0 /\ _chunk_text "alpha beta gamma" (-2) = Ok [].
Proof.
  assert (-2 <= 0) as H by lia.
  split; [exact H|].
  exact (chunk_text_nonpositive_window "alpha beta gamma" (-2) H).
Defined.
